(** * Christmas-Tree: morph driver, gesture classifier, point sampler

    A shallow embedding of the parts of the application that carry its
    logic:

    - [src/types.ts]                  the interaction state enum;
    - [src/App.tsx]                   the initial application state and the
                                      state-change callback;
    - [src/components/Experience.tsx] the global morph update run on every
                                      frame and the auto-rotate flag;
    - the [Ornaments] component       the per-ornament position update;
    - [src/components/Photos.tsx]     the per-photo position update;
    - the [GestureController] component, callback [onResults];
    - [src/utils/math.ts]             [getRandomSpherePoint], [getTreePoint],
                                      [getDenseBottomTreePoint],
                                      [normalizeValue];
    - the vertex shaders of [Foliage] and [SpiralTrail], the [Star]
      component, the hand control of the camera, the generation of the
      ornament and photo data, and [handleUpload].

    A JavaScript [number] is modelled as a real number: arithmetic is
    exact, and the rounding of IEEE-754 doubles is not part of the model.
    Where a property depends on that rounding, which is so for the
    number of frames the morph factor needs to arrive, the morph update
    is given twice more: with the rounding of each operation as a
    parameter ([Rounded]), and on binary64 numbers ([Binary64]).
    Comparisons are the decidable comparisons of [R].  React state is
    modelled by explicit state passing, and a JavaScript exception by an
    explicit [Throw] result that carries the state reached when it was
    raised. *)

From Stdlib Require Import Reals Lra Lia List String Bool Arith ZArith.
From Stdlib Require Import Ascii Decimal DecimalNat DecimalString Permutation.
From Stdlib Require PrimFloat.
Import ListNotations.

Open Scope R_scope.

(** ** [src/types.ts] *)

Inductive TreeMorphState : Type :=
| SCATTERED
| TREE_SHAPE.

Definition TreeMorphState_eqb (a b : TreeMorphState) : bool :=
  match a, b with
  | SCATTERED, SCATTERED => true
  | TREE_SHAPE, TREE_SHAPE => true
  | _, _ => false
  end.

(** ** Comparisons of numbers as booleans *)

Definition Rltb (a b : R) : bool := if Rlt_dec a b then true else false.
Definition Rgtb (a b : R) : bool := if Rgt_dec a b then true else false.
Definition Rneqb (a b : R) : bool := if Req_dec_T a b then false else true.

(** ** The [Math] object of JavaScript *)

Module Math.

Definition min (a b : R) : R := Rmin a b.
Definition max (a b : R) : R := Rmax a b.


(** [Math.hypot] with two arguments. *)
Definition hypot (a b : R) : R := sqrt (a * a + b * b).

(** [Math.cbrt]: the real cube root, odd in its argument. *)
Definition cbrt (x : R) : R :=
  match total_order_T x 0 with
  | inleft (left _) => - Rpower (- x) (/ 3)
  | inleft (right _) => 0
  | inright _ => Rpower x (/ 3)
  end.

(** [Math.pow] on a base [x >= 0] with an exponent [y > 0], the only
    way the source calls it (base [Math.random()], exponent 1.5).  A
    negative base or a zero base with a negative exponent gives [NaN] or
    [Infinity] in JavaScript; no real number stands for those, and no
    property below is stated there. *)
Definition pow (x y : R) : R :=
  match total_order_T x 0 with
  | inright _ => Rpower x y
  | _ => 0
  end.

(** [Math.floor]: the greatest integer not above [x]. *)
Definition floor (x : R) : Z := Int_part x.

(** [Math.atan2(y, x)], the angle of the point [(x, y)], in
    [(-PI, PI]]; signed zeros are not distinguished. *)
Definition atan2 (y x : R) : R :=
  match total_order_T x 0 with
  | inright _ => atan (y / x)
  | inleft (left _) =>
      if Rle_dec 0 y then atan (y / x) + PI else atan (y / x) - PI
  | inleft (right _) =>
      match total_order_T y 0 with
      | inright _ => PI / 2
      | inleft (left _) => - (PI / 2)
      | inleft (right _) => 0
      end
  end.

End Math.

(** ** [src/components/Experience.tsx] *)

Module Experience.

(** Line 49: [treeState === TreeMorphState.TREE_SHAPE ? 1 : 0]. *)
Definition target (treeState : TreeMorphState) : R :=
  if TreeMorphState_eqb treeState TREE_SHAPE then 1 else 0.

(** Lines 52-59: the value [next] computed in the frame callback. *)
Definition nextMorph (target smoothMorph delta : R) : R :=
  let step := delta * 1.5 in
  if Rltb smoothMorph target then Math.min target (smoothMorph + step)
  else if Rgtb smoothMorph target then Math.max target (smoothMorph - step)
  else smoothMorph.

(** Lines 48-63: the morph part of the frame callback; the React state
    [smoothMorph] is set only when [next] differs from it. *)
Definition frame (treeState : TreeMorphState) (smoothMorph delta : R) : R :=
  let next := nextMorph (target treeState) smoothMorph delta in
  if Rneqb next smoothMorph then next else smoothMorph.

(** A run of frames under one interaction state, one [delta] per frame. *)
Fixpoint frames (treeState : TreeMorphState) (smoothMorph : R)
         (deltas : list R) : R :=
  match deltas with
  | [] => smoothMorph
  | delta :: rest => frames treeState (frame treeState smoothMorph delta) rest
  end.

(** The orbit-controls fields written by the effect of lines 40-46. *)
Record Controls : Type := mkControls {
  autoRotate : bool;
  autoRotateSpeed : R
}.

Definition isSome {A : Type} (o : option A) : bool :=
  match o with Some _ => true | None => false end.

(** Lines 40-46; [controlsRef.current] may be null, then nothing is
    written. *)
Definition updateControls (controlsRef : option Controls)
           (treeState : TreeMorphState) (handPosition : option (R * R))
           (isMagnified : bool) : option Controls :=
  match controlsRef with
  | Some _ =>
      Some (mkControls
              (TreeMorphState_eqb treeState TREE_SHAPE
               && negb (isSome handPosition) && negb isMagnified)
              0.5)
  | None => None
  end.


End Experience.

(** ** The morph update with its rounding made explicit

    In the source every arithmetic operation returns the rounding of its
    exact result.  [rnd] is that rounding; with the identity for [rnd]
    these are the definitions of [Experience]. *)

Module Rounded.

(** Lines 52-59 of [Experience.tsx]. *)
Definition nextMorph (rnd : R -> R) (target smoothMorph delta : R) : R :=
  let step := rnd (delta * 1.5) in
  if Rltb smoothMorph target then
    Math.min target (rnd (smoothMorph + step))
  else if Rgtb smoothMorph target then
    Math.max target (rnd (smoothMorph - step))
  else smoothMorph.

(** Lines 48-63. *)
Definition frame (rnd : R -> R) (treeState : TreeMorphState)
           (smoothMorph delta : R) : R :=
  let next := nextMorph rnd (Experience.target treeState) smoothMorph delta in
  if Rneqb next smoothMorph then next else smoothMorph.

Fixpoint frames (rnd : R -> R) (treeState : TreeMorphState)
         (smoothMorph : R) (deltas : list R) : R :=
  match deltas with
  | [] => smoothMorph
  | delta :: rest =>
      frames rnd treeState (frame rnd treeState smoothMorph delta) rest
  end.

(** The time a run of frames takes. *)
Definition total (deltas : list R) : R := fold_right Rplus 0 deltas.

(** The accuracy of a rounding: on results of magnitude at most 2 the
    error of one operation is at most [u].  Rounding to the nearest
    binary64 number has [u] = 2^-53; exact arithmetic has [u] = 0. *)
Definition accurate (u : R) (rnd : R -> R) : Prop :=
  forall x, Rabs x <= 2 -> Rabs (rnd x - x) <= u.

(** Two roundings to try the definitions on: none, and rounding to the
    nearest multiple of 2^-53. *)
Definition exact (x : R) : R := x.

Definition toGrid (x : R) : R :=
  IZR (Int_part (x * IZR (2 ^ 53) + / 2)) / IZR (2 ^ 53).

End Rounded.

(** ** The morph update on binary64 numbers

    The same lines of [Experience.tsx] on the numbers the program
    computes with; every operation is the IEEE-754 operation. *)

Module Binary64.

Import PrimFloat.

(** [Math.min] and [Math.max] of two numbers: [NaN] if either is
    [NaN], and [-0] counts as smaller than [+0]. *)
Definition min (a b : float) : float :=
  if (is_nan a || is_nan b)%bool then nan
  else if (a <? b)%float then a
  else if (b <? a)%float then b
  else if (is_zero a && get_sign a)%bool then a else b.

Definition max (a b : float) : float :=
  if (is_nan a || is_nan b)%bool then nan
  else if (a <? b)%float then b
  else if (b <? a)%float then a
  else if (is_zero a && get_sign a)%bool then b else a.

Definition target (treeState : TreeMorphState) : float :=
  (if TreeMorphState_eqb treeState TREE_SHAPE then 1 else 0)%float.

Definition nextMorph (target smoothMorph delta : float) : float :=
  let step := (delta * 1.5)%float in
  if (smoothMorph <? target)%float then
    min target (smoothMorph + step)%float
  else if (target <? smoothMorph)%float then
    max target (smoothMorph - step)%float
  else smoothMorph.

(** [next !== smoothMorph] is the negation of the numeric equality. *)
Definition frame (treeState : TreeMorphState) (smoothMorph delta : float)
  : float :=
  let next := nextMorph (target treeState) smoothMorph delta in
  if negb (next =? smoothMorph)%float then next else smoothMorph.

Fixpoint frames (treeState : TreeMorphState) (smoothMorph : float)
         (deltas : list float) : float :=
  match deltas with
  | [] => smoothMorph
  | delta :: rest => frames treeState (frame treeState smoothMorph delta) rest
  end.





End Binary64.

(** ** The parts of three.js the components call

    [THREE.MathUtils.lerp], [Vector3.lerp] and [Vector3.lerpVectors] belong
    to the three.js library; they are written here as that library defines
    them. *)

Record Vector3 : Type := mkVector3 { vx : R; vy : R; vz : R }.

Module THREE.

(** [MathUtils.lerp(x, y, t)] is [(1 - t) * x + t * y]. *)
Definition lerp (x y t : R) : R := (1 - t) * x + t * y.

(** [new THREE.Vector3(...a)] for a three-element array. *)
Definition ofArray (a : R * R * R) : Vector3 :=
  let '(x, y, z) := a in mkVector3 x y z.

(** [this.lerp(v, alpha)]: every coordinate [c] becomes
    [c + (v.c - c) * alpha]. *)
Definition Vector3_lerp (this v : Vector3) (alpha : R) : Vector3 :=
  mkVector3 (vx this + (vx v - vx this) * alpha)
            (vy this + (vy v - vy this) * alpha)
            (vz this + (vz v - vz this) * alpha).

(** [this.lerpVectors(v1, v2, alpha)]: every coordinate becomes
    [v1.c + (v2.c - v1.c) * alpha]. *)
Definition lerpVectors (v1 v2 : Vector3) (alpha : R) : Vector3 :=
  mkVector3 (vx v1 + (vx v2 - vx v1) * alpha)
            (vy v1 + (vy v2 - vy v1) * alpha)
            (vz v1 + (vz v2 - vz v1) * alpha).

(** [Vector3.length()]. *)
Definition length (v : Vector3) : R :=
  sqrt (vx v * vx v + vy v * vy v + vz v * vz v).

(** [MathUtils.clamp(value, min, max)] is
    [Math.max(min, Math.min(max, value))]. *)
Definition clamp (value min max : R) : R :=
  Math.max min (Math.min max value).

Record Spherical : Type := mkSpherical { radius : R; phi : R; theta : R }.

(** [new Spherical().setFromVector3(v)]. *)
Definition setFromVector3 (v : Vector3) : Spherical :=
  let radius := length v in
  if Req_dec_T radius 0 then mkSpherical radius 0 0
  else mkSpherical radius
                   (acos (clamp (vy v / radius) (-1) 1))
                   (Math.atan2 (vx v) (vz v)).

(** [vec.setFromSpherical(s)]. *)
Definition setFromSpherical (s : Spherical) : Vector3 :=
  let sinPhiRadius := sin (phi s) * radius s in
  mkVector3 (sinPhiRadius * sin (theta s))
            (cos (phi s) * radius s)
            (sinPhiRadius * cos (theta s)).

End THREE.

(** ** [src/components/Experience.tsx]: the hand control of the camera *)

Module ExperienceCamera.

(** Lines 65-82 of the frame callback, on [camera.position]. *)
Definition frame (handPosition : option (R * R))
           (controlsPresent isMagnified : bool) (delta : R)
           (cameraPosition : Vector3) : Vector3 :=
  match handPosition with
  | Some (hx, hy) =>
      if controlsPresent && negb isMagnified then
        let targetAzimuth := hx * -1.2 in
        let targetPolar := PI / 2.2 - hy * 0.5 in
        let spherical := THREE.setFromVector3 cameraPosition in
        let theta :=
          THREE.lerp (THREE.theta spherical) targetAzimuth (delta * 3) in
        let phi :=
          THREE.lerp (THREE.phi spherical) targetPolar (delta * 3) in
        let phi := Math.max 0.1 (Math.min (PI / 1.6) phi) in
        THREE.setFromSpherical
          (THREE.mkSpherical (THREE.radius spherical) phi theta)
      else cameraPosition
  | None => cameraPosition
  end.

End ExperienceCamera.

(** ** [src/types.ts], continued *)

Record DualPosition : Type := mkDualPosition {
  treePosition : R * R * R;
  scatterPosition : R * R * R;
  rotation : R * R * R;
  scale : R;
  speed : R
}.

Inductive OrnamentType : Type := heavy | light | extra_light.

Record OrnamentData : Type := mkOrnamentData {
  o_dual : DualPosition;
  o_id : nat;
  o_type : OrnamentType;
  o_color : string
}.

Record PhotoData : Type := mkPhotoData {
  p_dual : DualPosition;
  p_id : string;
  p_url : string;
  p_aspectRatio : R
}.

Definition fst3 (a : R * R * R) : R := fst (fst a).
Definition snd3 (a : R * R * R) : R := snd (fst a).
Definition thd3 (a : R * R * R) : R := snd a.

(** ** [Math.random]

    The values the successive calls of [Math.random] return are a
    stream; a computation that draws threads the number of calls made
    so far. *)

Module Random.

Definition Source : Type := nat -> R.

Definition Gen (A : Type) : Type := Source -> nat -> A * nat.

Definition ret {A : Type} (a : A) : Gen A := fun _ n => (a, n).

Definition bind {A B : Type} (m : Gen A) (k : A -> Gen B) : Gen B :=
  fun src n => let '(a, n') := m src n in k a src n'.

Definition random : Gen R := fun src n => (src n, S n).

Notation "x <- m ;; k" := (bind m (fun x => k))
  (at level 61, m at next level, right associativity).

End Random.

(** ** The [Ornaments] component *)

Module Ornaments.

(** The key [`${item.type}-${item.id}`] of the position store. *)
Definition Key : Type := (OrnamentType * nat)%type.

Definition OrnamentType_eqb (a b : OrnamentType) : bool :=
  match a, b with
  | heavy, heavy | light, light | extra_light, extra_light => true
  | _, _ => false
  end.

Definition Key_eqb (a b : Key) : bool :=
  OrnamentType_eqb (fst a) (fst b) && Nat.eqb (snd a) (snd b).

Definition key (item : OrnamentData) : Key := (o_type item, o_id item).

(** [currentPositions.current], an object used as a map. *)
Definition Store : Type := Key -> option Vector3.

Definition store_set (s : Store) (k : Key) (v : Vector3) : Store :=
  fun k' => if Key_eqb k k' then Some v else s k'.

(** Lines 117-119: the morph target of one ornament. *)
Definition itemTarget (item : OrnamentData) (targetMorphFactor : R)
  : Vector3 :=
  let d := o_dual item in
  mkVector3
    (THREE.lerp (fst3 (scatterPosition d)) (fst3 (treePosition d))
                targetMorphFactor)
    (THREE.lerp (snd3 (scatterPosition d)) (snd3 (treePosition d))
                targetMorphFactor)
    (THREE.lerp (thd3 (scatterPosition d)) (thd3 (treePosition d))
                targetMorphFactor).

(** Lines 107 and 122: [dt * item.speed] with [dt = delta * 1.5]. *)
Definition lerpSpeed (item : OrnamentData) (delta : R) : R :=
  let dt := delta * 1.5 in dt * speed (o_dual item).

(** Lines 125-127: the new value of [currentPos]. *)
Definition updatePos (item : OrnamentData) (targetMorphFactor delta : R)
           (currentPos : Vector3) : Vector3 :=
  let t := itemTarget item targetMorphFactor in
  let s := lerpSpeed item delta in
  mkVector3 (THREE.lerp (vx currentPos) (vx t) s)
            (THREE.lerp (vy currentPos) (vy t) s)
            (THREE.lerp (vz currentPos) (vz t) s).

(** Lines 130-135: the position written into the instance matrix, the
    current position with the floating noise added to its height. *)
Definition instancePosition (item : OrnamentData) (time : R)
           (currentPos : Vector3) : Vector3 :=
  let noiseAmp :=
    match o_type item with
    | heavy => 0.01
    | extra_light => 0.05
    | light => 0.02
    end in
  let noiseY := sin (time + INR (o_id item) * 0.5) * noiseAmp in
  mkVector3 (vx currentPos) (vy currentPos + noiseY) (vz currentPos).

(** Lines 109-148: [updateMesh]; an item without a stored position is
    skipped, and a null mesh skips the whole group. *)
Definition updateMesh (meshPresent : bool) (targetMorphFactor delta : R)
           (data : list OrnamentData) (s : Store) : Store :=
  if meshPresent then
    fold_left
      (fun st item =>
         match st (key item) with
         | Some currentPos =>
             store_set st (key item)
                       (updatePos item targetMorphFactor delta currentPos)
         | None => st
         end)
      data s
  else s.

End Ornaments.

(** ** [src/components/Photos.tsx], component [PolaroidItem] *)

Module Photos.

(** The refs [currentPos] and [currentScale] of one polaroid. *)
Record ItemState : Type := mkItemState {
  currentPos : Vector3;
  currentScale : R
}.

(** Lines 29-31. *)
Definition initialItemState (data : PhotoData) : ItemState :=
  mkItemState (THREE.ofArray (scatterPosition (p_dual data)))
              (scale (p_dual data)).

(** Lines 45-58: the place of photo [index] of [total] in the gallery. *)
Definition galleryTarget (index total : nat) : Vector3 :=
  let radius := 6 in
  let angleStep := PI / (INR total + 1) in
  let angle := - PI / 2 + angleStep * (INR index + 1) in
  mkVector3 (sin angle * radius * 1.5)
            (6 + cos (angle * 2) * 1.0)
            (22 + cos angle * 2).

(** Lines 40-77: the target position and target scale. *)
Definition itemTarget (data : PhotoData) (morphFactor : R)
           (isMagnified : bool) (index total : nat) : Vector3 * R :=
  if isMagnified then (galleryTarget index total, 2.5)
  else (THREE.lerpVectors (THREE.ofArray (scatterPosition (p_dual data)))
                          (THREE.ofArray (treePosition (p_dual data)))
                          morphFactor,
        scale (p_dual data)).

(** Line 81. *)
Definition moveSpeed (data : PhotoData) (isMagnified : bool) (delta : R)
  : R :=
  delta * (if isMagnified then 5.0 else 2.0 * speed (p_dual data)).

(** Lines 33-84: the frame callback on the two refs; with no mounted
    group ([groupRef.current] null) it returns at once. *)
Definition frame (groupPresent : bool) (data : PhotoData)
           (morphFactor : R) (isMagnified : bool) (index total : nat)
           (delta : R) (st : ItemState) : ItemState :=
  if groupPresent then
    let '(target, targetScale) :=
      itemTarget data morphFactor isMagnified index total in
    let s := moveSpeed data isMagnified delta in
    mkItemState (THREE.Vector3_lerp (currentPos st) target s)
                (THREE.lerp (currentScale st) targetScale s)
  else st.

End Photos.

(** ** [src/utils/math.ts] *)

(** [getRandomSpherePoint]; the three calls of [Math.random] are the
    arguments [u], [v] and [w], in the order the source makes them. *)
Definition getRandomSpherePoint (radius u v w : R) : R * R * R :=
  let theta := 2 * PI * u in
  let phi := acos (2 * v - 1) in
  let r := Math.cbrt w * radius in
  let sinPhi := sin phi in
  (r * sinPhi * cos theta, r * sinPhi * sin theta, r * cos phi).

(** [getTreePoint]; the three calls of [Math.random] are [a] (height),
    [b] (angle) and [c] (thickness), in the order the source makes them. *)
Definition getTreePoint (height radiusBase yOffset a b c : R) : R * R * R :=
  let h := a * height in
  let y := h + yOffset in
  let r := (height - h) / height * radiusBase in
  let theta := b * PI * 2 in
  let thickness := c * 0.8 in
  ((r + thickness) * cos theta, y, (r + thickness) * sin theta).

(** [getDenseBottomTreePoint], with the draws in the same order. *)
Definition getDenseBottomTreePoint (height radiusBase yOffset a b c : R)
  : R * R * R :=
  let bias := Math.pow a 1.5 in
  let h := bias * height in
  let y := h + yOffset in
  let r := (height - h) / height * radiusBase in
  let theta := b * PI * 2 in
  let thickness := c * 0.5 in
  ((r + thickness) * cos theta, y, (r + thickness) * sin theta).

(** [normalizeValue]. *)
Definition normalizeValue (val min max : R) : R := (val - min) / (max - min).

(** Distance of a point from the vertical axis. *)
Definition axisDist (p : R * R * R) : R :=
  sqrt (fst3 p * fst3 p + thd3 p * thd3 p).

(** A value a call of [Math.random] can return. *)
Definition draw (u : R) : Prop := 0 <= u < 1.

(** Euclidean distance of a point from the origin. *)
Definition norm3 (p : R * R * R) : R :=
  sqrt (fst3 p * fst3 p + snd3 p * snd3 p + thd3 p * thd3 p).

(** ** The [Ornaments] component: generation, initial positions, frame *)

Module OrnamentsSetup.

Import Random.

Definition COUNT : nat := 1200.

Definition colors : list string :=
  ["#FFD700"; "#D4AF37"; "#8B0000"; "#F0F0F0"; "#004225"]%string.

Definition lightColors : list string :=
  ["#FFFDD0"; "#FFD700"; "#FF8C00"]%string.

(** [arr[Math.floor(u * arr.length)]]; an index past the end, which a
    draw never gives, would read [undefined]. *)
Definition pick (arr : list string) (u : R) : string :=
  nth (Z.to_nat (Math.floor (u * INR (List.length arr)))) arr
      "undefined"%string.

(** Lines 42-46. *)
Definition typeOf (rand : R) : OrnamentType :=
  if Rltb rand 0.15 then heavy
  else if Rltb rand 0.60 then light
  else extra_light.

(** Line 58. *)
Definition offsetOf (type : OrnamentType) : R :=
  match type with
  | heavy => 0.3
  | light => 0.2
  | extra_light => 0.4
  end.

(** Lines 55-60: the tree position moved away from the axis. *)
Definition pushOut (tPos : R * R * R) (type : OrnamentType) : R * R * R :=
  let angle := Math.atan2 (thd3 tPos) (fst3 tPos) in
  let offset := offsetOf type in
  (fst3 tPos + cos angle * offset, snd3 tPos,
   thd3 tPos + sin angle * offset).

(** Lines 41-88: the body of the loop for index [i]. *)
Definition generateOne (i : nat) : Gen OrnamentData :=
  rand <- random ;;
  let type := typeOf rand in
  a <- random ;;
  b <- random ;;
  c <- random ;;
  let tPos := getDenseBottomTreePoint 15.5 7.0 (-7.5) a b c in
  u <- random ;;
  v <- random ;;
  w <- random ;;
  let sPos := getRandomSpherePoint 25 u v w in
  let tPos := pushOut tPos type in
  cd <- random ;;
  let color := pick colors cd in
  ssc <-
    match type with
    | heavy =>
        s1 <- random ;;
        s2 <- random ;;
        ret (0.8 + s1 * 0.7, 0.4 + s2 * 0.25, color)
    | light =>
        s1 <- random ;;
        s2 <- random ;;
        ret (2.0 + s1 * 1.5, 0.2 + s2 * 0.15, color)
    | extra_light =>
        s1 <- random ;;
        s2 <- random ;;
        lc <- random ;;
        ret (4.0 + s1 * 2.0, 0.06 + s2 * 0.04, pick lightColors lc)
    end ;;
  let '(speed, scale, color) := ssc in
  r1 <- random ;;
  r2 <- random ;;
  ret (mkOrnamentData
         (mkDualPosition tPos sPos (r1 * PI, r2 * PI, 0) scale speed)
         i type color).

Record Lists : Type := mkLists {
  baubles : list OrnamentData;
  gifts : list OrnamentData;
  lights : list OrnamentData
}.

(** Lines 90-92. *)
Definition push (data : OrnamentData) (l : Lists) : Lists :=
  match o_type data with
  | heavy => mkLists (baubles l) (gifts l ++ [data]) (lights l)
  | light => mkLists (baubles l ++ [data]) (gifts l) (lights l)
  | extra_light => mkLists (baubles l) (gifts l) (lights l ++ [data])
  end.

(** The loop [for (let i = ...; i < COUNT; i++)] with [n] rounds left. *)
Fixpoint generateLoop (n i : nat) (acc : Lists) : Gen Lists :=
  match n with
  | O => ret acc
  | S n' =>
      data <- generateOne i ;;
      generateLoop n' (S i) (push data acc)
  end.

(** Lines 22-95. *)
Definition generate : Gen Lists := generateLoop COUNT 0 (mkLists [] [] []).

Definition all (l : Lists) : list OrnamentData :=
  baubles l ++ gifts l ++ lights l.

Definition emptyStore : Ornaments.Store := fun _ => None.

(** Lines 99-104: every item's position starts at its scatter
    position. *)
Definition initPositions (l : Lists) (s : Ornaments.Store)
  : Ornaments.Store :=
  fold_left
    (fun st item =>
       Ornaments.store_set st (Ornaments.key item)
         (THREE.ofArray (scatterPosition (o_dual item))))
    (all l) s.

(** Lines 106-153: the frame callback, one [updateMesh] per mesh. *)
Definition frame (baublePresent giftPresent lightPresent : bool)
           (targetMorphFactor delta : R) (l : Lists) (s : Ornaments.Store)
  : Ornaments.Store :=
  let s1 := Ornaments.updateMesh baublePresent targetMorphFactor delta
              (baubles l) s in
  let s2 := Ornaments.updateMesh giftPresent targetMorphFactor delta
              (gifts l) s1 in
  Ornaments.updateMesh lightPresent targetMorphFactor delta (lights l) s2.

End OrnamentsSetup.

(** ** [src/components/Photos.tsx]: generation and rotation *)

Module PhotosSetup.

Import Random.

(** [`photo-${index}`]. *)
Definition idOf (index : nat) : string :=
  ("photo-" ++ NilEmpty.string_of_uint (Nat.to_uint index))%string.

(** Lines 135-161: the data of the photo at [index]. *)
Definition generateOne (url : string) (index : nat) : Gen PhotoData :=
  a <- random ;;
  b <- random ;;
  c <- random ;;
  let rawTreePos := getDenseBottomTreePoint 14 7.5 (-7) a b c in
  let pushOut := 1.2 in
  let treePos :=
    (fst3 rawTreePos * pushOut, snd3 rawTreePos, thd3 rawTreePos * pushOut)
  in
  u <- random ;;
  v <- random ;;
  w <- random ;;
  let scatterPos := getRandomSpherePoint 30 u v w in
  r1 <- random ;;
  r2 <- random ;;
  r3 <- random ;;
  s <- random ;;
  ret (mkPhotoData
         (mkDualPosition treePos scatterPos (r1 * PI, r2 * PI, r3 * PI)
                         1.5 (0.8 + s * 0.4))
         (idOf index) url 1).

(** [photos.map((url, index) => ...)], from index [index] on. *)
Fixpoint generateFrom (index : nat) (photos : list string)
  : Gen (list PhotoData) :=
  match photos with
  | [] => ret []
  | url :: rest =>
      data <- generateOne url index ;;
      datas <- generateFrom (S index) rest ;;
      ret (data :: datas)
  end.

Definition photoData (photos : list string) : Gen (list PhotoData) :=
  generateFrom 0 photos.

(** [s.charCodeAt(0)]; on the empty string JavaScript gives [NaN]. *)
Definition charCodeAt0 (s : string) : option R :=
  match s with
  | String ch _ => Some (INR (Ascii.nat_of_ascii ch))
  | EmptyString => None
  end.

(** Lines 94-107: the rotation of a polaroid that is not magnified;
    [None] stands for the [NaN] angles an empty id would give. *)
Definition swayRotation (data : PhotoData) (morphFactor time : R)
  : option (R * R * R) :=
  match charCodeAt0 (p_id data) with
  | Some randomOffset =>
      let swayIntensity := morphFactor * 0.1 in
      let rotX := sin (time * 1.5 + randomOffset) * 0.1 * swayIntensity in
      let rotZ := cos (time * 1.2 + randomOffset) * 0.1 * swayIntensity in
      let rot := rotation (p_dual data) in
      Some (THREE.lerp (fst3 rot + time * 0.2) rotX morphFactor,
            THREE.lerp (snd3 rot + time * 0.2) 0 morphFactor,
            THREE.lerp (thd3 rot + time * 0.2) rotZ morphFactor)
  | None => None
  end.

End PhotosSetup.

(** ** [src/App.tsx] *)

Module App.

(** The four [useState] cells of the component. *)
Record State : Type := mkState {
  treeState : TreeMorphState;
  handPosition : option (R * R);
  isMagnified : bool;
  photos : list string
}.

(** Lines 10-13: the initial values of the cells. *)
Definition initial : State := mkState TREE_SHAPE None false [].

Definition setTreeState (newState : TreeMorphState) (s : State) : State :=
  mkState newState (handPosition s) (isMagnified s) (photos s).

Definition setHandPosition (pos : option (R * R)) (s : State) : State :=
  mkState (treeState s) pos (isMagnified s) (photos s).

Definition setIsMagnified (b : bool) (s : State) : State :=
  mkState (treeState s) (handPosition s) b (photos s).

(** Lines 15-17: [setTreeState(prev => prev !== newState ? newState : prev)]. *)
Definition handleStateChange (newState : TreeMorphState) (s : State)
  : State :=
  let prev := treeState s in
  setTreeState (if negb (TreeMorphState_eqb prev newState)
                then newState else prev) s.

(** Lines 19-28: [handleUpload]; [files] is [e.target.files], which may
    be null, and [createObjectURL] is [URL.createObjectURL]. *)
Definition handleUpload {File : Type} (createObjectURL : File -> string)
           (files : option (list File)) (s : State) : State :=
  match files with
  | Some fs =>
      if (0 <? List.length fs)%nat then
        let newPhotos := map createObjectURL fs in
        mkState (treeState s) (handPosition s) (isMagnified s)
                (photos s ++ newPhotos)
      else s
  | None => s
  end.

End App.

(** ** The [GestureController] component *)

Module GestureController.

Inductive Status : Type := loading | active | error.

(** One normalized landmark of the detector; only [x] and [y] are read. *)
Record Landmark : Type := mkLandmark { x : R; y : R }.

(** The detector's result: [multiHandLandmarks] may be undefined, and
    holds one landmark array per detected hand. *)
Record Results : Type := mkResults {
  multiHandLandmarks : option (list (list Landmark))
}.

(** What the callback finds mounted: the two refs and the 2D context. *)
Record Env : Type := mkEnv {
  canvasMounted : bool;
  videoMounted : bool;
  context2d : bool
}.

(** The state the callback writes: the cells of [App] behind the three
    callbacks, and the component's own [status] and [gestureLabel]. *)
Record World : Type := mkWorld {
  app : App.State;
  status : Status;
  gestureLabel : string
}.

Inductive JsError : Type := TypeError.

(** A computation either finishes or throws; both carry the state. *)
Inductive Res (A : Type) : Type :=
| Ok (a : A) (w : World)
| Throw (e : JsError) (w : World).
Arguments Ok {A} a w.
Arguments Throw {A} e w.

Definition M (A : Type) : Type := World -> Res A.

Definition ret {A : Type} (a : A) : M A := fun w => Ok a w.

Definition bind {A B : Type} (m : M A) (k : A -> M B) : M B :=
  fun w =>
    match m w with
    | Ok a w' => k a w'
    | Throw e w' => Throw e w'
    end.

Notation "x <- m ;; k" := (bind m (fun x => k))
  (at level 61, m at next level, right associativity).
Notation "m ;;; k" := (bind m (fun _ => k))
  (at level 61, right associativity).

Definition modify (f : World -> World) : M unit := fun w => Ok tt (f w).

Definition setStatus (s : Status) : M unit :=
  modify (fun w => mkWorld (app w) s (gestureLabel w)).

Definition setGestureLabel (l : string) : M unit :=
  modify (fun w => mkWorld (app w) (status w) l).

(** The props [onStateChange], [onHandMove] and [onMagnify], bound in
    [App] to [handleStateChange], [setHandPosition], [setIsMagnified]. *)
Definition onStateChange (s : TreeMorphState) : M unit :=
  modify (fun w =>
    mkWorld (App.handleStateChange s (app w)) (status w) (gestureLabel w)).

Definition onHandMove (pos : option (R * R)) : M unit :=
  modify (fun w =>
    mkWorld (App.setHandPosition pos (app w)) (status w) (gestureLabel w)).

Definition onMagnify (b : bool) : M unit :=
  modify (fun w =>
    mkWorld (App.setIsMagnified b (app w)) (status w) (gestureLabel w)).

(** Reading a property of [landmarks[i]]: an index past the end gives
    [undefined], and reading a property of [undefined] throws. *)
Definition prop (o : option Landmark) (f : Landmark -> R) : M R :=
  fun w =>
    match o with
    | Some p => Ok (f p) w
    | None => Throw TypeError w
    end.

(** Lines 273-277 of the component's file: [isFingerOpen]. *)
Definition isFingerOpen (landmarks : list Landmark)
           (wrist : option Landmark) (tipIdx pipIdx : nat) : M bool :=
  tx <- prop (nth_error landmarks tipIdx) x ;;
  wx <- prop wrist x ;;
  ty <- prop (nth_error landmarks tipIdx) y ;;
  wy <- prop wrist y ;;
  let dTip := Math.hypot (tx - wx) (ty - wy) in
  px <- prop (nth_error landmarks pipIdx) x ;;
  wx' <- prop wrist x ;;
  py <- prop (nth_error landmarks pipIdx) y ;;
  wy' <- prop wrist y ;;
  let dPip := Math.hypot (px - wx') (py - wy') in
  ret (Rgtb dTip dPip).

(** [onResults], without the drawing on the canvas. *)
Definition onResults (env : Env) (results : Results) : M unit :=
  if negb (canvasMounted env) || negb (videoMounted env) then ret tt
  else if negb (context2d env) then ret tt
  else
    match multiHandLandmarks results with
    | Some (landmarks :: _) =>
        setStatus active ;;;
        let wrist := nth_error landmarks 0 in
        indexOpen <- isFingerOpen landmarks wrist 8 6 ;;
        middleOpen <- isFingerOpen landmarks wrist 12 10 ;;
        ringOpen <- isFingerOpen landmarks wrist 16 14 ;;
        pinkyOpen <- isFingerOpen landmarks wrist 20 18 ;;
        thumbOpen <- isFingerOpen landmarks wrist 4 2 ;;
        let openCount :=
          List.length (filter (fun b : bool => b)
                    [indexOpen; middleOpen; ringOpen; pinkyOpen; thumbOpen])
        in
        let thumbTip := nth_error landmarks 4 in
        let indexTip := nth_error landmarks 8 in
        tx <- prop thumbTip x ;;
        ix <- prop indexTip x ;;
        ty <- prop thumbTip y ;;
        iy <- prop indexTip y ;;
        let pinchDist := Math.hypot (tx - ix) (ty - iy) in
        let isPinching := Rltb pinchDist 0.05 in
        (if isPinching then
           onMagnify true ;;;
           setGestureLabel "CATCH"%string
         else
           onMagnify false ;;;
           if (openCount <=? 1)%nat then
             onStateChange TREE_SHAPE ;;;
             setGestureLabel "FORM"%string
           else if (4 <=? openCount)%nat then
             onStateChange SCATTERED ;;;
             setGestureLabel "UNLEASH"%string
           else
             setGestureLabel "TRACKING"%string) ;;;
        let p := nth_error landmarks 9 in
        px <- prop p x ;;
        py <- prop p y ;;
        onHandMove (Some ((1 - px - 0.5) * 2, (py - 0.5) * 2))
    | _ =>
        onHandMove None ;;;
        setGestureLabel "NO HAND"%string ;;;
        onMagnify false
    end.

(** *** The quantities the classification is stated with *)

(** [landmarks[i]] of a sample that has the entry. *)
Definition lm (landmarks : list Landmark) (i : nat) : Landmark :=
  nth i landmarks (mkLandmark 0 0).

Definition dist (a b : Landmark) : R :=
  Math.hypot (x a - x b) (y a - y b).

(** Thumb tip to index tip. *)
Definition pinchDist (landmarks : list Landmark) : R :=
  dist (lm landmarks 4) (lm landmarks 8).

(** A finger is open when its tip is strictly farther from the wrist
    than its lower joint. *)
Definition fingerOpen (landmarks : list Landmark) (tipIdx pipIdx : nat)
  : bool :=
  Rgtb (dist (lm landmarks tipIdx) (lm landmarks 0))
       (dist (lm landmarks pipIdx) (lm landmarks 0)).

(** Tip and lower joint of index, middle, ring, pinky and thumb. *)
Definition fingers : list (nat * nat) :=
  [(8, 6); (12, 10); (16, 14); (20, 18); (4, 2)]%nat.

Definition openCount (landmarks : list Landmark) : nat :=
  List.length (filter (fun f => fingerOpen landmarks (fst f) (snd f)) fingers).

(** The hand offset of lines 315-319. *)
Definition handOffset (landmarks : list Landmark) : R * R :=
  ((1 - x (lm landmarks 9) - 0.5) * 2, (y (lm landmarks 9) - 0.5) * 2).

(** A sample with every joint: the detector's 21 landmarks. *)
Definition complete (landmarks : list Landmark) : Prop :=
  (21 <= List.length landmarks)%nat.

(** The environment in which the callback gets past its guards. *)
Definition mounted (env : Env) : Prop :=
  canvasMounted env = true /\ videoMounted env = true
  /\ context2d env = true.

(** The state a complete sample leaves, written without the monad. *)
Definition afterHand (landmarks : list Landmark) (w : World) : World :=
  let a := app w in
  let pos := Some (handOffset landmarks) in
  if Rltb (pinchDist landmarks) 0.05 then
    mkWorld (App.mkState (App.treeState a) pos true (App.photos a))
            active "CATCH"
  else if (openCount landmarks <=? 1)%nat then
    mkWorld (App.mkState TREE_SHAPE pos false (App.photos a))
            active "FORM"
  else if (4 <=? openCount landmarks)%nat then
    mkWorld (App.mkState SCATTERED pos false (App.photos a))
            active "UNLEASH"
  else
    mkWorld (App.mkState (App.treeState a) pos false (App.photos a))
            active "TRACKING".

(** The state the no-hand branch leaves. *)
Definition afterNoHand (w : World) : World :=
  mkWorld (App.mkState (App.treeState (app w)) None false
                       (App.photos (app w)))
          (status w) "NO HAND".

(** *** Sample inputs *)

Definition allMounted : Env := mkEnv true true true.

(** A hand with the wrist at the bottom, every lower joint at middle
    height and every tip above it: five open fingers.  The thumb tip
    and the index tip are 0.03 apart. *)
Definition pinchingOpenHand : list Landmark :=
  let W := mkLandmark 0.5 0.9 in
  let J := mkLandmark 0.5 0.7 in
  let T := mkLandmark 0.5 0.5 in
  let I := mkLandmark 0.53 0.5 in
  [W; J; J; J; T; J; J; J; I; J; J; J; T; J; J; J; T; J; J; J; T].

(** A closed hand: every tip nearer to the wrist than its lower joint,
    thumb tip and index tip 0.1 apart. *)
Definition fist : list Landmark :=
  let W := mkLandmark 0.5 0.9 in
  let J := mkLandmark 0.5 0.7 in
  let T := mkLandmark 0.5 0.8 in
  let B := mkLandmark 0.4 0.8 in
  [W; J; J; J; B; J; J; J; T; J; J; J; T; J; J; J; T; J; J; J; T].

(** A sample that lacks its last joint, the pinky tip. *)
Definition withoutPinkyTip : list Landmark :=
  removelast fist.

Definition magnifiedWorld : World :=
  mkWorld (App.mkState SCATTERED (Some (0.2, 0.1)) true [])
          active "CATCH".

Definition startWorld : World := mkWorld App.initial loading "".

(** The state a call leaves, whether it returned or threw. *)
Definition worldOf {A : Type} (r : Res A) : World :=
  match r with
  | Ok _ w => w
  | Throw _ w => w
  end.

End GestureController.

(** ** The GLSL built-ins the shaders call

    Written as the GLSL specification defines them, over the reals. *)

Module GLSL.

(** [mix(x, y, a)] is [x * (1 - a) + y * a]. *)
Definition mix (x y a : R) : R := x * (1 - a) + y * a.

Definition mix3 (p q : Vector3) (a : R) : Vector3 :=
  mkVector3 (mix (vx p) (vx q) a) (mix (vy p) (vy q) a)
            (mix (vz p) (vz q) a).

(** [pow(x, y)], defined by GLSL for [x >= 0] only. *)
Definition pow (x y : R) : R := Math.pow x y.

Definition floor (x : R) : R := IZR (Int_part x).

(** [mod(x, y)] is [x - y * floor(x / y)]. *)
Definition mod_ (x y : R) : R := x - y * floor (x / y).

(** [clamp(x, lo, hi)] is [min(max(x, lo), hi)]. *)
Definition clamp (x lo hi : R) : R := Rmin (Rmax x lo) hi.

(** [smoothstep(e0, e1, x)]. *)
Definition smoothstep (e0 e1 x : R) : R :=
  let t := clamp ((x - e0) / (e1 - e0)) 0 1 in
  t * t * (3 - 2 * t).

Definition length3 (v : Vector3) : R :=
  sqrt (vx v * vx v + vy v * vy v + vz v * vz v).

(** [normalize(v)] is [v / length(v)]. *)
Definition normalize (v : Vector3) : Vector3 :=
  mkVector3 (vx v / length3 v) (vy v / length3 v) (vz v / length3 v).

Definition scale3 (v : Vector3) (k : R) : Vector3 :=
  mkVector3 (vx v * k) (vy v * k) (vz v * k).

Definition add3 (p q : Vector3) : Vector3 :=
  mkVector3 (vx p + vx q) (vy p + vy q) (vz p + vz q).

End GLSL.

(** ** [src/components/Foliage.tsx]: the vertex shader *)

Module Foliage.

(** Lines 23-25. *)
Definition easeInOutCubic (x : R) : R :=
  if Rltb x 0.5 then 4.0 * x * x * x
  else 1.0 - GLSL.pow (-2.0 * x + 2.0) 3.0 / 2.0.

(** Lines 29-32: the eased blend of the two stored positions. *)
Definition blend (uMorphFactor : R) (aTreePos aScatterPos : Vector3)
  : Vector3 :=
  let progress := easeInOutCubic uMorphFactor in
  GLSL.mix3 aScatterPos aTreePos progress.

(** Lines 29-38: [finalPos] before the camera transform. *)
Definition finalPos (uTime uMorphFactor aRandom : R)
           (aTreePos aScatterPos : Vector3) : Vector3 :=
  let p := blend uMorphFactor aTreePos aScatterPos in
  let breathe := sin (uTime * 2.0 + aRandom * 10.0) * 0.1 in
  mkVector3 (vx p + cos (uTime + aRandom * 5.0) * 0.05)
            (vy p + breathe)
            (vz p).

(** Line 56. *)
Definition vAlpha (uMorphFactor : R) : R :=
  let progress := easeInOutCubic uMorphFactor in
  0.6 + 0.4 * progress.

(** Lines 48-53: the colour of a particle. *)
Definition vColor (aRandom : R) : Vector3 :=
  let emerald := mkVector3 0.0 0.157 0.082 in
  let gold := mkVector3 1.0 0.84 0.0 in
  let isTip := GLSL.smoothstep 0.85 1.0 aRandom in
  GLSL.mix3 emerald gold (isTip * 0.9).

End Foliage.

(** ** The [SpiralTrail] component: the vertex shader *)

Module SpiralTrail.

Definition PARTICLE_COUNT : nat := 3000.

(** [#define PI 3.14159265359]. *)
Definition PI : R := 3.14159265359.

(** [idx[i] = i / PARTICLE_COUNT]. *)
Definition index (i : nat) : R := INR i / INR PARTICLE_COUNT.

Definition cycle (uTime aIndex : R) : R :=
  GLSL.mod_ (uTime * 0.15 + aIndex) 1.0.

(** The point of the conical spiral. *)
Definition treePos (uTime aIndex : R) : Vector3 :=
  let cycle := cycle uTime aIndex in
  let h := -8.0 + cycle * 18.0 in
  let rBase := 9.0 in
  let r := rBase * (1.0 - cycle) + 0.5 in
  let angle := cycle * PI * 12.0 in
  mkVector3 (cos angle * r) h (sin angle * r).

Definition jitter (aIndex aRandom : R) : Vector3 :=
  let jitterRad := 0.8 * aRandom in
  mkVector3 (cos (aIndex * 150.0) * jitterRad)
            (sin (aIndex * 80.0) * jitterRad)
            (sin (aIndex * 40.0) * jitterRad).

(** [finalPos] before the scattering logic. *)
Definition trailPos (uTime aIndex aRandom : R) : Vector3 :=
  GLSL.add3 (treePos uTime aIndex) (jitter aIndex aRandom).

Definition scatterPos (uTime aIndex aRandom : R) : Vector3 :=
  GLSL.scale3 (GLSL.normalize (trailPos uTime aIndex aRandom))
              (20.0 + aRandom * 10.0).

(** [finalPos] before the camera transform. *)
Definition finalPos (uTime uMorphFactor aIndex aRandom : R) : Vector3 :=
  GLSL.mix3 (scatterPos uTime aIndex aRandom)
            (trailPos uTime aIndex aRandom) uMorphFactor.

Definition size (uTime aIndex aRandom : R) : R :=
  (20.0 * (1.0 - cycle uTime aIndex) + 5.0) * aRandom.

Definition vAlpha (uTime aIndex aRandom : R) : R :=
  let cycle := cycle uTime aIndex in
  let twinkle := sin (uTime * 4.0 + aRandom * 50.0) in
  GLSL.smoothstep 0.0 0.1 cycle * (1.0 - GLSL.smoothstep 0.95 1.0 cycle)
  * (0.7 + 0.3 * twinkle).

End SpiralTrail.

(** ** The [Star] component *)

Module Star.

(** The fields of the three objects the frame callback writes. *)
Record State : Type := mkState {
  position : Vector3;
  scale : R;
  coreRotationY : R;
  outerRotationY : R;
  outerRotationZ : R
}.

(** The objects as they are mounted: the group at the origin with scale
    1, the outer mesh turned by [PI / 4] about its z axis. *)
Definition initial : State :=
  mkState (mkVector3 0 0 0) 1 0 0 (Rtrigo1.PI / 4).

Definition treePos : Vector3 := mkVector3 0 9 0.
Definition scatterPos : Vector3 := mkVector3 0 18 0.

(** The frame callback; each of the three refs may be null. *)
Definition frame (groupPresent corePresent outerPresent : bool)
           (morphFactor delta : R) (st : State) : State :=
  if groupPresent then
    let target := THREE.lerpVectors scatterPos treePos morphFactor in
    mkState
      (THREE.Vector3_lerp (position st) target (delta * 2))
      (THREE.lerp 0 1.2 morphFactor)
      (if corePresent then coreRotationY st + delta * 0.8
       else coreRotationY st)
      (if outerPresent then outerRotationY st - delta * 0.8
       else outerRotationY st)
      (if outerPresent then outerRotationZ st + delta * 0.2
       else outerRotationZ st)
  else st.

(** A run of frames, each with its morph factor and frame time. *)
Fixpoint frames (ticks : list (R * R)) (st : State) : State :=
  match ticks with
  | [] => st
  | (morphFactor, delta) :: rest =>
      frames rest (frame true true true morphFactor delta st)
  end.

End Star.

(** ** Reference formulations used in the statements *)

(** [c] lies between [a] and [b], in either order. *)
Definition between (a b c : R) : Prop := Rmin a b <= c <= Rmax a b.

Definition between3 (a b c : Vector3) : Prop :=
  between (vx a) (vx b) (vx c)
  /\ between (vy a) (vy b) (vy c)
  /\ between (vz a) (vz b) (vz c).

(** The per-entity update in the words of the specification,
    [currentPosition += (target - currentPosition) * min(1, k)] with
    [k = tickDeltaSeconds * arrivalRate * globalSpeedMultiplier]. *)
Definition clampedApproach (currentPosition target k : R) : R :=
  currentPosition + (target - currentPosition) * Rmin 1 k.

(** The same update without the clamp. *)
Definition approach (currentPosition target k : R) : R :=
  currentPosition + (target - currentPosition) * k.

Definition approach3 (currentPosition target : Vector3) (k : R) : Vector3 :=
  mkVector3 (approach (vx currentPosition) (vx target) k)
            (approach (vy currentPosition) (vy target) k)
            (approach (vz currentPosition) (vz target) k).

(** ** What the generation gives *)

(** The ranges of an ornament of each class: speed, scale and palette
    by class; the tree position inside the cone of height 15.5 on the
    base -7.5, moved outwards by the class offset; the scatter position
    inside the sphere of radius 25. *)
Definition ornamentInRanges (item : OrnamentData) : Prop :=
  let d := o_dual item in
  match o_type item with
  | heavy =>
      0.8 <= speed d < 1.5 /\ 0.4 <= scale d < 0.65
      /\ In (o_color item) OrnamentsSetup.colors
  | light =>
      2 <= speed d < 3.5 /\ 0.2 <= scale d < 0.35
      /\ In (o_color item) OrnamentsSetup.colors
  | extra_light =>
      4 <= speed d < 6 /\ 0.06 <= scale d < 0.1
      /\ In (o_color item) OrnamentsSetup.lightColors
  end
  /\ -7.5 <= snd3 (treePosition d) < 8
  /\ OrnamentsSetup.offsetOf (o_type item) <= axisDist (treePosition d)
     < 7.5 + OrnamentsSetup.offsetOf (o_type item)
  /\ norm3 (scatterPosition d) <= 25.

(** Every value of the stream is one [Math.random] can return. *)
Definition draws (src : Random.Source) : Prop := forall k, draw (src k).

(** A stream that returns one value for ever. *)
Definition constantSource (u : R) : Random.Source := fun _ => u.

(** The ranges of a generated photo: speed, scale, the tree position
    inside the cone of height 14 on the base -7 widened by the factor
    1.2, the scatter position inside the sphere of radius 30. *)
Definition photoInRanges (data : PhotoData) : Prop :=
  let d := p_dual data in
  0.8 <= speed d < 1.2
  /\ scale d = 1.5
  /\ -7 <= snd3 (treePosition d) < 7
  /\ 0 <= axisDist (treePosition d) < 9.6
  /\ norm3 (scatterPosition d) <= 30.

(** A hand sample moved by [(dx, dy)] in the image, and the sample
    mirrored about the vertical line [x = 1/2]. *)
Definition translate (dx dy : R)
           (landmarks : list GestureController.Landmark)
  : list GestureController.Landmark :=
  map (fun p => GestureController.mkLandmark
                  (GestureController.x p + dx) (GestureController.y p + dy))
      landmarks.

Definition mirror (landmarks : list GestureController.Landmark)
  : list GestureController.Landmark :=
  map (fun p => GestureController.mkLandmark
                  (1 - GestureController.x p) (GestureController.y p))
      landmarks.

(** What the classification of a sample decides: label, magnify flag
    and interaction state. *)
Definition verdict (w : GestureController.World)
  : string * bool * TreeMorphState :=
  (GestureController.gestureLabel w,
   App.isMagnified (GestureController.app w),
   App.treeState (GestureController.app w)).

(** ** Sample entities *)

(** An ornament of the [light] class (speed 2) and a photo (speed 1),
    both with scatter position at the origin and tree position at
    [(1,0,0)]. *)
Definition sampleDual (speed : R) : DualPosition :=
  mkDualPosition (1, 0, 0) (0, 0, 0) (0, 0, 0) 1 speed.

Definition sampleOrnament : OrnamentData :=
  mkOrnamentData (sampleDual 2) 0 light "#FFD700".

Definition samplePhoto : PhotoData :=
  mkPhotoData (sampleDual 1) "photo-0" "blob:0" 1.

(** A gift and a bauble with fields in the generated ranges. *)
Definition sampleGift : OrnamentData :=
  mkOrnamentData (mkDualPosition (1, 0, 0) (0, 0, 0) (0, 0, 0) 0.5 1)
                 1 heavy "#FFD700".

Definition sampleBauble : OrnamentData :=
  mkOrnamentData (mkDualPosition (1, 0, 0) (0, 0, 0) (0, 0, 0) 0.25 2)
                 2 light "#FFD700".

(** * Properties *)

(** ** Numbers *)

Lemma Rltb_true (a b : R) : a < b -> Rltb a b = true.
Proof.
  intros H. unfold Rltb.
  destruct (Rlt_dec a b); [reflexivity | contradiction].
Qed.

Lemma Rltb_false (a b : R) : b <= a -> Rltb a b = false.
Proof. intros H. unfold Rltb. destruct (Rlt_dec a b); [lra | reflexivity]. Qed.

Lemma Rgtb_true (a b : R) : b < a -> Rgtb a b = true.
Proof. intros H. unfold Rgtb. destruct (Rgt_dec a b); [reflexivity | lra]. Qed.

Lemma Rgtb_false (a b : R) : a <= b -> Rgtb a b = false.
Proof. intros H. unfold Rgtb. destruct (Rgt_dec a b); [lra | reflexivity]. Qed.

(** Case analysis on every [Rmin], [Rmax] and [Rabs] of the goal. *)
Ltac split_min_max :=
  unfold Math.min, Math.max, Rmax, Rmin, Rabs;
  repeat match goal with
         | |- context [Rle_dec ?a ?b] => destruct (Rle_dec a b)
         | |- context [Rcase_abs ?a] => destruct (Rcase_abs a)
         end.

(** Case analysis on the [Rmin], [Rmax] and [Rabs] of the goal and of
    the hypotheses it leaves behind. *)
Ltac split_min_max_all :=
  split_min_max;
  repeat match goal with
         | H : context [Rle_dec ?a ?b] |- _ => destruct (Rle_dec a b)
         | H : context [Rcase_abs ?a] |- _ => destruct (Rcase_abs a)
         end.



(** ** The global morph update *)

Section MorphDriver.

Import Experience.

Lemma target_cases (ts : TreeMorphState) : target ts = 0 \/ target ts = 1.
Proof. destruct ts; [left | right]; reflexivity. Qed.

(** Setting the React state only on a change does not alter the value. *)
Lemma frame_nextMorph (ts : TreeMorphState) (m delta : R) :
  frame ts m delta = nextMorph (target ts) m delta.
Proof.
  unfold frame, Rneqb.
  destruct (Req_dec_T (nextMorph (target ts) m delta) m) as [E | _];
    [symmetry; exact E | reflexivity].
Qed.

Lemma nextMorph_up (m delta : R) :
  m < 1 -> nextMorph 1 m delta = Rmin 1 (m + delta * 1.5).
Proof.
  intros H. unfold nextMorph. rewrite (Rltb_true m 1 H). reflexivity.
Qed.

Lemma nextMorph_down (m delta : R) :
  0 < m -> nextMorph 0 m delta = Rmax 0 (m - delta * 1.5).
Proof.
  intros H. unfold nextMorph.
  rewrite (Rltb_false m 0) by lra. rewrite (Rgtb_true m 0 H). reflexivity.
Qed.

Lemma nextMorph_fixed (t delta : R) : nextMorph t t delta = t.
Proof.
  unfold nextMorph.
  rewrite (Rltb_false t t), (Rgtb_false t t) by lra. reflexivity.
Qed.

(** One tick: bounds, no overshoot, and the direction of the move. *)
Lemma frame_step (ts : TreeMorphState) (m delta : R) :
  0 <= m <= 1 -> 0 <= delta ->
  0 <= frame ts m delta <= 1
  /\ Rmin m (target ts) <= frame ts m delta <= Rmax m (target ts)
  /\ Rabs (target ts - frame ts m delta) <= Rabs (target ts - m)
  /\ (target ts = 1 -> m <= frame ts m delta)
  /\ (target ts = 0 -> frame ts m delta <= m).
Proof.
  intros Hm Hd. rewrite frame_nextMorph.
  destruct ts; cbn [target TreeMorphState_eqb].
  - destruct (Rle_lt_or_eq_dec 0 m (proj1 Hm)) as [Hpos | <-].
    + rewrite nextMorph_down by exact Hpos.
      split_min_max; repeat split; intros; lra.
    + rewrite nextMorph_fixed.
      split_min_max; repeat split; intros; lra.
  - destruct (Rle_lt_or_eq_dec m 1 (proj2 Hm)) as [Hlt | ->].
    + rewrite nextMorph_up by exact Hlt.
      split_min_max; repeat split; intros; lra.
    + rewrite nextMorph_fixed.
      split_min_max; repeat split; intros; lra.
Qed.


(** The interval [[0,1]] is kept by any run of frames. *)
Lemma frames_bounds (ts : TreeMorphState) (deltas : list R) :
  forall m, 0 <= m <= 1 -> Forall (fun d => 0 <= d) deltas ->
            0 <= frames ts m deltas <= 1.
Proof.
  induction deltas as [| d rest IH]; intros m Hm Hall; cbn.
  - exact Hm.
  - inversion Hall as [| ? ? Hd Hrest]; subst.
    apply IH; [apply (frame_step ts m d Hm Hd) | exact Hrest].
Qed.




End MorphDriver.

(** C1.  On every tick of the global morph update, at any point of a run
    of frames with non-negative frame times under one interaction state:
    the target is 0 or 1, the updated factor stays in [[0,1]], lies
    between the previous factor and the target, is no farther from the
    target than the previous factor, and moves only towards the target,
    so that under a constant target the factors form a monotonic
    sequence. *)
Theorem morph_factor_invariant
        (ts : TreeMorphState) (m delta : R) (deltas : list R) :
  0 <= m <= 1 ->
  Forall (fun d => 0 <= d) deltas ->
  0 <= delta ->
  let t := Experience.target ts in
  let mk := Experience.frames ts m deltas in
  let m' := Experience.frame ts mk delta in
  (t = 0 \/ t = 1)
  /\ 0 <= m' <= 1
  /\ Rmin mk t <= m' <= Rmax mk t
  /\ Rabs (t - m') <= Rabs (t - mk)
  /\ (t = 1 -> mk <= m')
  /\ (t = 0 -> m' <= mk).
Proof.
  intros Hm Hall Hd t mk m'.
  assert (Hmk : 0 <= mk <= 1) by (apply frames_bounds; assumption).
  split; [apply target_cases |].
  exact (frame_step ts mk delta Hmk Hd).
Qed.

Lemma morph_factor_invariant_witness :
  0 <= 0.25 <= 1
  /\ Forall (fun d => 0 <= d) [0.1; 0.2]
  /\ 0 <= Experience.frame SCATTERED
            (Experience.frames SCATTERED 0.25 [0.1; 0.2]) 0.3 <= 1.
Proof.
  assert (H1 : 0 <= 0.25 <= 1) by lra.
  assert (H2 : Forall (fun d => 0 <= d) [0.1; 0.2])
    by (repeat constructor; lra).
  assert (H3 : 0 <= 0.3) by lra.
  split; [exact H1 | split; [exact H2 |]].
  exact (proj1 (proj2 (morph_factor_invariant SCATTERED 0.25 0.3 [0.1; 0.2]
                         H1 H2 H3))).
Defined.

(** ** The global morph update under rounding *)

Lemma Rabs_le_inv (x y : R) : Rabs x <= y -> - y <= x <= y.
Proof. unfold Rabs. destruct (Rcase_abs x); lra. Qed.

Lemma accurate_nonneg (u : R) (rnd : R -> R) :
  Rounded.accurate u rnd -> 0 <= u.
Proof.
  intros H. apply Rle_trans with (Rabs (rnd 0 - 0)); [apply Rabs_pos |].
  apply H. rewrite Rabs_R0. lra.
Qed.

Lemma accurate_exact : Rounded.accurate 0 Rounded.exact.
Proof.
  intros x _. unfold Rounded.exact.
  replace (x - x) with 0 by ring. rewrite Rabs_R0. lra.
Qed.

Lemma grid_unit : 0 < / IZR (2 ^ 53) <= / 1000.
Proof.
  assert (H : 1000 <= IZR (2 ^ 53)) by (apply IZR_le; vm_compute; discriminate).
  split.
  - apply Rinv_0_lt_compat. lra.
  - apply Rinv_le_contravar; lra.
Qed.

Lemma accurate_toGrid : Rounded.accurate (/ IZR (2 ^ 53)) Rounded.toGrid.
Proof.
  intros x _. unfold Rounded.toGrid.
  assert (HG : 0 < / IZR (2 ^ 53)) by apply grid_unit.
  set (G := IZR (2 ^ 53)) in *.
  assert (HG0 : 0 < G).
  { apply Rinv_0_lt_compat in HG. rewrite Rinv_inv in HG. exact HG. }
  destruct (base_Int_part (x * G + / 2)) as [Hle Hgt].
  set (z := IZR (Int_part (x * G + / 2))) in *.
  replace (z / G - x) with ((z - x * G) * / G) by (field; lra).
  rewrite Rabs_mult, (Rabs_pos_eq (/ G)) by lra.
  rewrite <- (Rmult_1_l (/ G)) at 2.
  apply Rmult_le_compat_r; [lra |].
  unfold Rabs. destruct (Rcase_abs (z - x * G)); lra.
Qed.

(** Without rounding these are the definitions of [Experience]. *)
Lemma rounded_exact_frames (ts : TreeMorphState) (deltas : list R) :
  forall m,
    Rounded.frames Rounded.exact ts m deltas = Experience.frames ts m deltas.
Proof.
  induction deltas as [| d rest IH]; intros m; cbn; [reflexivity |].
  rewrite IH. reflexivity.
Qed.

Lemma rounded_frame_nextMorph
      (rnd : R -> R) (ts : TreeMorphState) (m delta : R) :
  Rounded.frame rnd ts m delta
  = Rounded.nextMorph rnd (Experience.target ts) m delta.
Proof.
  unfold Rounded.frame, Rneqb.
  destruct (Req_dec_T
              (Rounded.nextMorph rnd (Experience.target ts) m delta) m)
    as [E | _]; [symmetry; exact E | reflexivity].
Qed.

(** What the two rounded operations of a frame leave: the step is within
    [u] of [delta * 1.5], and the sum or difference within [2 * u] of the
    exact one. *)
Lemma rounded_sum (rnd : R -> R) (u m delta : R) :
  Rounded.accurate u rnd ->
  0 <= m <= 1 -> 2 * u <= delta * 1.5 <= 1 - u ->
  let step := rnd (delta * 1.5) in
  m + delta * 1.5 - 2 * u <= rnd (m + step) <= m + delta * 1.5 + 2 * u
  /\ m - delta * 1.5 - 2 * u <= rnd (m - step) <= m - delta * 1.5 + 2 * u.
Proof.
  intros Hr Hm Hd step.
  assert (Hu := accurate_nonneg u rnd Hr).
  assert (Hs : Rabs (step - delta * 1.5) <= u).
  { apply Hr. unfold Rabs. destruct (Rcase_abs (delta * 1.5)); lra. }
  apply Rabs_le_inv in Hs.
  assert (Hp : Rabs (rnd (m + step) - (m + step)) <= u).
  { apply Hr. unfold Rabs. destruct (Rcase_abs (m + step)); lra. }
  assert (Hq : Rabs (rnd (m - step) - (m - step)) <= u).
  { apply Hr. unfold Rabs. destruct (Rcase_abs (m - step)); lra. }
  apply Rabs_le_inv in Hp. apply Rabs_le_inv in Hq. lra.
Qed.

(** One rounded frame: where it lands, and that it stays in [[0,1]]. *)
Lemma rounded_frame_step (rnd : R -> R) (u m delta : R) :
  Rounded.accurate u rnd ->
  0 <= m <= 1 -> 2 * u <= delta * 1.5 <= 1 - u ->
  (Rmin 1 (m + delta * 1.5 - 2 * u)
   <= Rounded.frame rnd TREE_SHAPE m delta
   <= Rmin 1 (m + delta * 1.5 + 2 * u))
  /\ (Rmax 0 (m - delta * 1.5 - 2 * u)
      <= Rounded.frame rnd SCATTERED m delta
      <= Rmax 0 (m - delta * 1.5 + 2 * u)).
Proof.
  intros Hr Hm Hd.
  assert (Hu := accurate_nonneg u rnd Hr).
  destruct (rounded_sum rnd u m delta Hr Hm Hd) as [Hp Hq].
  rewrite !rounded_frame_nextMorph.
  cbn [Experience.target TreeMorphState_eqb]. unfold Rounded.nextMorph.
  cbv zeta. split.
  - destruct (Rle_lt_or_eq_dec m 1 (proj2 Hm)) as [Hlt | ->].
    + rewrite (Rltb_true m 1 Hlt). split_min_max; lra.
    + rewrite (Rltb_false 1 1), (Rgtb_false 1 1) by lra.
      split_min_max; lra.
  - destruct (Rle_lt_or_eq_dec 0 m (proj1 Hm)) as [Hlt | <-].
    + rewrite (Rltb_false m 0) by lra. rewrite (Rgtb_true m 0 Hlt).
      split_min_max; lra.
    + rewrite (Rltb_false 0 0), (Rgtb_false 0 0) by lra.
      split_min_max; lra.
Qed.

Lemma rounded_frame_range
      (rnd : R -> R) (u : R) (ts : TreeMorphState) (m delta : R) :
  Rounded.accurate u rnd ->
  0 <= m <= 1 -> 2 * u <= delta * 1.5 <= 1 - u ->
  0 <= Rounded.frame rnd ts m delta <= 1.
Proof.
  intros Hr Hm Hd.
  assert (Hu := accurate_nonneg u rnd Hr).
  destruct (rounded_frame_step rnd u m delta Hr Hm Hd) as [Hup Hdown].
  destruct ts; [revert Hdown | revert Hup]; split_min_max; lra.
Qed.

Lemma total_lower (u : R) (deltas : list R) :
  Forall (fun d => 2 * u <= d * 1.5 <= 1 - u) deltas ->
  2 * INR (List.length deltas) * u <= Rounded.total deltas * 1.5.
Proof.
  induction 1 as [| d rest Hd _ IH].
  - cbn. lra.
  - cbn [Rounded.total fold_right List.length]. fold (Rounded.total rest).
    rewrite S_INR. cbv beta in Hd. lra.
Qed.

(** A run of rounded frames ends within [2 * u] per frame of where the
    exact run ends. *)
Lemma rounded_frames_bounds (rnd : R -> R) (u : R) (deltas : list R) :
  Rounded.accurate u rnd ->
  Forall (fun d => 2 * u <= d * 1.5 <= 1 - u) deltas ->
  forall m, 0 <= m <= 1 ->
  let way := Rounded.total deltas * 1.5 in
  let e := 2 * INR (List.length deltas) * u in
  (Rmin 1 (m + way - e) <= Rounded.frames rnd TREE_SHAPE m deltas
   <= Rmin 1 (m + way + e))
  /\ (Rmax 0 (m - way - e) <= Rounded.frames rnd SCATTERED m deltas
      <= Rmax 0 (m - way + e)).
Proof.
  intros Hr Hall. assert (Hu := accurate_nonneg u rnd Hr).
  induction Hall as [| d rest Hd Hrest IH]; intros m Hm way e;
    subst way e.
  - cbn. split; split_min_max; lra.
  - cbv beta in Hd.
    cbn [Rounded.frames Rounded.total fold_right List.length].
    fold (Rounded.total rest). rewrite S_INR.
    assert (Hlow := total_lower u rest Hrest).
    destruct (rounded_frame_step rnd u m d Hr Hm Hd) as [Hup Hdown].
    set (ku := INR (List.length rest) * u) in *.
    replace (2 * INR (List.length rest) * u) with (2 * ku) in *
      by (unfold ku; ring).
    replace (2 * (INR (List.length rest) + 1) * u) with (2 * ku + 2 * u)
      by (unfold ku; ring).
    split.
    + destruct (IH (Rounded.frame rnd TREE_SHAPE m d)
                  (rounded_frame_range rnd u TREE_SHAPE m d Hr Hm Hd))
        as [[H1 H2] _].
      fold ku in H1, H2.
      replace (2 * INR (List.length rest) * u) with (2 * ku) in H1, H2
        by (unfold ku; ring).
      revert Hup H1 H2. split_min_max; lra.
    + destruct (IH (Rounded.frame rnd SCATTERED m d)
                  (rounded_frame_range rnd u SCATTERED m d Hr Hm Hd))
        as [_ [H1 H2]].
      fold ku in H1, H2.
      replace (2 * INR (List.length rest) * u) with (2 * ku) in H1, H2
        by (unfold ku; ring).
      revert Hdown H1 H2. split_min_max; lra.
Qed.






(** C8.  When the orbit controls exist, the effect sets the auto-rotate
    flag to true exactly when the interaction state is TREE_SHAPE, there
    is no hand position, and the view is not magnified. *)
Theorem autoRotate_iff
        (c : Experience.Controls) (ts : TreeMorphState)
        (hp : option (R * R)) (mag : bool) :
  exists c',
    Experience.updateControls (Some c) ts hp mag = Some c'
    /\ (Experience.autoRotate c' = true
        <-> ts = TREE_SHAPE /\ hp = None /\ mag = false).
Proof.
  eexists. split; [reflexivity |].
  cbn [Experience.autoRotate].
  destruct ts, hp, mag; cbn; split;
    try (intros H; discriminate H);
    try (intros (H1 & H2 & H3); discriminate);
    try (intros _; repeat split; reflexivity);
    try reflexivity.
Qed.




(** ** The per-entity position update *)

Lemma lerp_approach (a b t : R) : THREE.lerp a b t = approach a b t.
Proof. unfold THREE.lerp, approach. ring. Qed.

Lemma approach_between (a b k : R) :
  0 <= k <= 1 -> between a b (approach a b k).
Proof.
  intros Hk. unfold between, approach, Rmin, Rmax.
  destruct (Rle_dec a b); nra.
Qed.

Lemma ornament_updatePos_approach
      (item : OrnamentData) (m delta : R) (cur : Vector3) :
  Ornaments.updatePos item m delta cur
  = approach3 cur (Ornaments.itemTarget item m)
              (Ornaments.lerpSpeed item delta).
Proof.
  unfold Ornaments.updatePos, approach3. cbv zeta.
  rewrite !lerp_approach. reflexivity.
Qed.

Lemma photo_frame_approach
      (data : PhotoData) (m : R) (mag : bool) (index total : nat)
      (delta : R) (st : Photos.ItemState) :
  Photos.currentPos (Photos.frame true data m mag index total delta st)
  = approach3 (Photos.currentPos st)
              (fst (Photos.itemTarget data m mag index total))
              (Photos.moveSpeed data mag delta).
Proof.
  unfold Photos.frame.
  destruct (Photos.itemTarget data m mag index total) as [t ts].
  reflexivity.
Qed.

(** C3, as stated, fails on a stalled frame: with a frame time of one
    second and morph factor 1, the ornament's coefficient is 3 and the
    photo's is 2; both leave the segment from the old position to the
    target, and differ from the clamped update. *)
Lemma lagged_update_overshoots :
  let origin := mkVector3 0 0 0 in
  let o' := Ornaments.updatePos sampleOrnament 1 1 origin in
  let p' := Photos.currentPos
              (Photos.frame true samplePhoto 1 false 0 1 1
                            (Photos.initialItemState samplePhoto)) in
  vx (Ornaments.itemTarget sampleOrnament 1) = 1
  /\ Ornaments.lerpSpeed sampleOrnament 1 = 3
  /\ vx o' = 3
  /\ vx o' <> clampedApproach 0 1 (Ornaments.lerpSpeed sampleOrnament 1)
  /\ ~ between 0 1 (vx o')
  /\ Photos.moveSpeed samplePhoto false 1 = 2
  /\ vx p' = 2
  /\ vx p' <> clampedApproach 0 1 (Photos.moveSpeed samplePhoto false 1)
  /\ ~ between 0 1 (vx p').
Proof.
  cbv zeta.
  assert (Ht : vx (Ornaments.itemTarget sampleOrnament 1) = 1).
  { cbn. unfold THREE.lerp. lra. }
  assert (Hs : Ornaments.lerpSpeed sampleOrnament 1 = 3).
  { unfold Ornaments.lerpSpeed. cbn. lra. }
  assert (Ho : vx (Ornaments.updatePos sampleOrnament 1 1 (mkVector3 0 0 0))
               = 3).
  { cbn. unfold THREE.lerp. lra. }
  assert (Hm : Photos.moveSpeed samplePhoto false 1 = 2).
  { unfold Photos.moveSpeed. cbn. lra. }
  assert (Hp : vx (Photos.currentPos
                     (Photos.frame true samplePhoto 1 false 0 1 1
                        (Photos.initialItemState samplePhoto))) = 2).
  { cbn. lra. }
  assert (Hc : forall k, 1 <= k -> clampedApproach 0 1 k = 1).
  { intros k Hk. unfold clampedApproach, Rmin.
    destruct (Rle_dec 1 k); lra. }
  assert (Hb : forall c, 1 < c -> ~ between 0 1 c).
  { intros c Hc1 [_ Hhi]. unfold Rmax in Hhi.
    destruct (Rle_dec 0 1); lra. }
  rewrite Ho, Hp, Hs, Hm, !Hc by lra.
  repeat split; try assumption; try lra; apply Hb; lra.
Qed.

(** C3, amended.  Every coordinate of an ornament's stored position is
    updated as [c += (target - c) * k] with [k = delta * 1.5 * speed],
    and of a photo's with [k = delta * (2 * speed)], or [k = delta * 5]
    while magnified; [k] is not clamped.  Whenever [0 <= k <= 1] the new
    position lies between the old position and the target. *)
Theorem lagged_update_unclamped
        (item : OrnamentData) (data : PhotoData) (m delta : R)
        (cur : Vector3) (st : Photos.ItemState) (mag : bool)
        (index total : nat) :
  let kO := Ornaments.lerpSpeed item delta in
  let tO := Ornaments.itemTarget item m in
  let kP := Photos.moveSpeed data mag delta in
  let tP := fst (Photos.itemTarget data m mag index total) in
  let pos' := Photos.currentPos
                (Photos.frame true data m mag index total delta st) in
  kO = delta * 1.5 * speed (o_dual item)
  /\ kP = delta * (if mag then 5 else 2 * speed (p_dual data))
  /\ Ornaments.updatePos item m delta cur = approach3 cur tO kO
  /\ pos' = approach3 (Photos.currentPos st) tP kP
  /\ (0 <= kO <= 1 -> between3 cur tO (Ornaments.updatePos item m delta cur))
  /\ (0 <= kP <= 1 -> between3 (Photos.currentPos st) tP pos').
Proof.
  cbv zeta. split; [reflexivity |].
  split; [unfold Photos.moveSpeed; destruct mag; f_equal; lra |].
  split; [apply ornament_updatePos_approach |].
  split; [apply photo_frame_approach |].
  split; intros Hk.
  - rewrite ornament_updatePos_approach.
    repeat split; apply approach_between; exact Hk.
  - rewrite photo_frame_approach.
    repeat split; apply approach_between; exact Hk.
Qed.

Lemma lagged_update_unclamped_witness :
  0 <= Ornaments.lerpSpeed sampleOrnament 0.016 <= 1
  /\ between3 (mkVector3 0 0 0) (Ornaments.itemTarget sampleOrnament 1)
              (Ornaments.updatePos sampleOrnament 1 0.016 (mkVector3 0 0 0)).
Proof.
  assert (H : 0 <= Ornaments.lerpSpeed sampleOrnament 0.016 <= 1).
  { unfold Ornaments.lerpSpeed. cbn. lra. }
  split; [exact H |].
  exact (proj1 (proj2 (proj2 (proj2 (proj2
           (lagged_update_unclamped sampleOrnament samplePhoto 1 0.016
              (mkVector3 0 0 0) (Photos.initialItemState samplePhoto)
              false 0 1))))) H).
Defined.

(** ** The sphere sampler *)

Lemma Rpower_third_cube (a : R) :
  0 < a -> Rpower a (/ 3) * Rpower a (/ 3) * Rpower a (/ 3) = a.
Proof.
  intros Ha. unfold Rpower. rewrite <- !exp_plus.
  replace (/ 3 * ln a + / 3 * ln a + / 3 * ln a) with (ln a) by field.
  apply exp_ln. exact Ha.
Qed.

(** [Math.cbrt] is the cube root on the whole line. *)
Lemma cbrt_cube (a : R) : Math.cbrt a * Math.cbrt a * Math.cbrt a = a.
Proof.
  unfold Math.cbrt. destruct (total_order_T a 0) as [[Hneg | Hz] | Hpos].
  - assert (H := Rpower_third_cube (- a) ltac:(lra)).
    replace (- Rpower (- a) (/ 3) * - Rpower (- a) (/ 3)
             * - Rpower (- a) (/ 3))
      with (- (Rpower (- a) (/ 3) * Rpower (- a) (/ 3)
               * Rpower (- a) (/ 3))) by ring.
    lra.
  - lra.
  - apply Rpower_third_cube. exact Hpos.
Qed.

Lemma cbrt_unit (a : R) : 0 <= a <= 1 -> 0 <= Math.cbrt a <= 1.
Proof.
  intros [H0 H1]. unfold Math.cbrt.
  destruct (total_order_T a 0) as [[Hneg | Hz] | Hpos]; [lra | lra |].
  unfold Rpower. split; [left; apply exp_pos |].
  assert (Hln : ln a <= 0).
  { destruct H1 as [Hlt | ->]; [| rewrite ln_1; lra].
    rewrite <- ln_1. left. apply ln_increasing; assumption. }
  destruct Hln as [Hlt | Heq].
  - left. rewrite <- exp_0. apply exp_increasing. lra.
  - rewrite Heq, Rmult_0_r, exp_0. lra.
Qed.

(** The point built from radial coordinate [r] and the two angles has
    distance [r] from the origin. *)
Lemma spherical_norm (r theta phi : R) :
  0 <= r ->
  norm3 (r * sin phi * cos theta, r * sin phi * sin theta, r * cos phi) = r.
Proof.
  intros Hr. unfold norm3, fst3, snd3, thd3. cbn [fst snd].
  assert (Ht := sin2_cos2 theta). assert (Hp := sin2_cos2 phi).
  unfold Rsqr in Ht, Hp.
  replace (r * sin phi * cos theta * (r * sin phi * cos theta)
           + r * sin phi * sin theta * (r * sin phi * sin theta)
           + r * cos phi * (r * cos phi))
    with (r * r * (sin phi * sin phi
                   * (sin theta * sin theta + cos theta * cos theta)
                   + cos phi * cos phi)) by ring.
  rewrite Ht, Rmult_1_r, Hp, Rmult_1_r.
  apply sqrt_square. exact Hr.
Qed.

(** C9.  For a radius [radius >= 0] and draws [u], [v], [w] in [[0,1]],
    the sampled point has radial coordinate [r = cbrt w * radius], where
    [cbrt w] is the cube root of [w], and angles [theta = 2 * PI * u] and
    [phi = acos (2 * v - 1)]; its distance from the origin is [r], which
    is at most [radius]. *)
Theorem sphere_point_within_radius (radius u v w : R) :
  0 <= radius ->
  0 <= u <= 1 -> 0 <= v <= 1 -> 0 <= w <= 1 ->
  let r := Math.cbrt w * radius in
  let theta := 2 * PI * u in
  let phi := acos (2 * v - 1) in
  getRandomSpherePoint radius u v w
  = (r * sin phi * cos theta, r * sin phi * sin theta, r * cos phi)
  /\ Math.cbrt w * Math.cbrt w * Math.cbrt w = w
  /\ norm3 (getRandomSpherePoint radius u v w) = r
  /\ 0 <= norm3 (getRandomSpherePoint radius u v w) <= radius.
Proof.
  intros Hrad Hu Hv Hw r theta phi.
  destruct (cbrt_unit w Hw) as [Hc0 Hc1].
  assert (Hr : 0 <= r) by (apply Rmult_le_pos; assumption).
  assert (Hnorm : norm3 (getRandomSpherePoint radius u v w) = r).
  { unfold getRandomSpherePoint. cbv zeta. apply spherical_norm. exact Hr. }
  split; [reflexivity |].
  split; [apply cbrt_cube |].
  split; [exact Hnorm |].
  rewrite Hnorm. split; [exact Hr |].
  unfold r. rewrite <- (Rmult_1_l radius) at 2.
  apply Rmult_le_compat_r; assumption.
Qed.

Lemma sphere_point_within_radius_witness :
  0 <= 25 /\ 0 <= 0.25 <= 1 /\ 0 <= 0.5 <= 1 /\ 0 <= 1 <= 1
  /\ 0 <= norm3 (getRandomSpherePoint 25 0.25 0.5 1) <= 25.
Proof.
  assert (H1 : 0 <= 25) by lra.
  assert (H2 : 0 <= 0.25 <= 1) by lra.
  assert (H3 : 0 <= 0.5 <= 1) by lra.
  assert (H4 : 0 <= 1 <= 1) by lra.
  repeat (split; [assumption |]).
  exact (proj2 (proj2 (proj2
           (sphere_point_within_radius 25 0.25 0.5 1 H1 H2 H3 H4)))).
Defined.

(** ** The gesture classifier *)

Section Gesture.

Import GestureController.

(** The count of open fingers, as the callback computes it. *)
Lemma openCount_flags (landmarks : list Landmark) :
  openCount landmarks
  = List.length
      (filter (fun b : bool => b)
         [fingerOpen landmarks 8 6; fingerOpen landmarks 12 10;
          fingerOpen landmarks 16 14; fingerOpen landmarks 20 18;
          fingerOpen landmarks 4 2]).
Proof.
  unfold openCount, fingers. cbn [filter fst snd].
  destruct (fingerOpen landmarks 8 6), (fingerOpen landmarks 12 10),
    (fingerOpen landmarks 16 14), (fingerOpen landmarks 20 18),
    (fingerOpen landmarks 4 2); reflexivity.
Qed.

Lemma openCount_le_5 (landmarks : list Landmark) :
  (openCount landmarks <= 5)%nat.
Proof.
  rewrite openCount_flags.
  destruct (fingerOpen landmarks 8 6), (fingerOpen landmarks 12 10),
    (fingerOpen landmarks 16 14), (fingerOpen landmarks 20 18),
    (fingerOpen landmarks 4 2); cbn; lia.
Qed.

(** On a complete sample the callback never throws, and leaves the
    state [afterHand]. *)
Lemma onResults_complete (env : Env) (landmarks : list Landmark)
      (others : list (list Landmark)) (w : World) :
  mounted env -> complete landmarks ->
  onResults env (mkResults (Some (landmarks :: others))) w
  = Ok tt (afterHand landmarks w).
Proof.
  intros (Hc & Hv & Hx) Hl. unfold complete in Hl.
  unfold afterHand. rewrite openCount_flags.
  do 21 (destruct landmarks as [| ? landmarks]; [cbn in Hl; lia |]).
  clear Hl.
  unfold onResults. rewrite Hc, Hv, Hx. cbn [negb orb multiHandLandmarks].
  cbv [bind ret isFingerOpen prop nth_error].
  cbv [pinchDist fingerOpen dist lm nth handOffset].
  repeat match goal with
         | |- context [Rgtb ?a ?b] => generalize (Rgtb a b); intro
         | |- context [Rltb ?a ?b] => generalize (Rltb a b); intro
         end.
  destruct w as [[ts hp mg ph] st gl].
  repeat match goal with b : bool |- _ => destruct b end;
    destruct ts; reflexivity.
Qed.

(** With no hand in the result the callback leaves [afterNoHand]. *)
Lemma onResults_no_hand (env : Env) (results : Results) (w : World) :
  mounted env ->
  multiHandLandmarks results = None \/ multiHandLandmarks results = Some [] ->
  onResults env results w = Ok tt (afterNoHand w).
Proof.
  intros (Hc & Hv & Hx) Hnone.
  unfold onResults. rewrite Hc, Hv, Hx. cbn [negb orb].
  destruct Hnone as [-> | ->]; reflexivity.
Qed.

(** [isFingerOpen] writes nothing: it returns a flag or throws, in the
    state it was called in. *)
Lemma isFingerOpen_cases (landmarks : list Landmark)
      (wrist : option Landmark) (tipIdx pipIdx : nat) (w : World) :
  (exists b, isFingerOpen landmarks wrist tipIdx pipIdx w = Ok b w)
  \/ isFingerOpen landmarks wrist tipIdx pipIdx w = Throw TypeError w.
Proof.
  unfold isFingerOpen, bind, prop, ret.
  destruct (nth_error landmarks tipIdx), wrist,
    (nth_error landmarks pipIdx);
    (left; eexists; reflexivity) || (right; reflexivity).
Qed.

Lemma isFingerOpen_no_tip (landmarks : list Landmark)
      (wrist : option Landmark) (tipIdx pipIdx : nat) (w : World) :
  nth_error landmarks tipIdx = None ->
  isFingerOpen landmarks wrist tipIdx pipIdx w = Throw TypeError w.
Proof.
  intros H. unfold isFingerOpen, bind, prop. rewrite H. reflexivity.
Qed.

(** On a sample without the pinky tip the callback throws before any
    of the three callbacks runs: only [status] has been written. *)
Lemma onResults_incomplete (env : Env) (landmarks : list Landmark)
      (others : list (list Landmark)) (w : World) :
  mounted env -> (List.length landmarks < 21)%nat ->
  onResults env (mkResults (Some (landmarks :: others))) w
  = Throw TypeError (mkWorld (app w) active (gestureLabel w)).
Proof.
  intros (Hc & Hv & Hx) Hl.
  assert (Hpinky : nth_error landmarks 20 = None)
    by (apply nth_error_None; lia).
  unfold onResults. rewrite Hc, Hv, Hx. cbn [negb orb multiHandLandmarks].
  unfold bind at 1. cbn [setStatus modify].
  set (w1 := mkWorld (app w) active (gestureLabel w)).
  set (wrist := nth_error landmarks 0).
  unfold bind at 1.
  destruct (isFingerOpen_cases landmarks wrist 8 6 w1) as [[b1 ->] | ->];
    [| reflexivity].
  unfold bind at 1.
  destruct (isFingerOpen_cases landmarks wrist 12 10 w1) as [[b2 ->] | ->];
    [| reflexivity].
  unfold bind at 1.
  destruct (isFingerOpen_cases landmarks wrist 16 14 w1) as [[b3 ->] | ->];
    [| reflexivity].
  unfold bind at 1.
  rewrite (isFingerOpen_no_tip landmarks wrist 20 18 w1 Hpinky).
  reflexivity.
Qed.

End Gesture.

(** ** The sample hands *)

Lemma hypot_lt (a b c d : R) :
  a * a + b * b < c * c + d * d -> Math.hypot a b < Math.hypot c d.
Proof.
  intros H. unfold Math.hypot. apply sqrt_lt_1; nra.
Qed.

Lemma hypot_0_r_neg (a : R) : a <= 0 -> Math.hypot a 0 = - a.
Proof.
  intros Ha. unfold Math.hypot.
  replace (a * a + 0 * 0) with ((- a) * (- a)) by ring.
  apply sqrt_square. lra.
Qed.

Lemma allMounted_mounted :
  GestureController.mounted GestureController.allMounted.
Proof. repeat split. Qed.

Lemma pinchingOpenHand_facts :
  GestureController.complete GestureController.pinchingOpenHand
  /\ GestureController.pinchDist GestureController.pinchingOpenHand = 0.03
  /\ GestureController.openCount GestureController.pinchingOpenHand = 5%nat.
Proof.
  split; [unfold GestureController.complete; cbn; lia |]. split.
  - unfold GestureController.pinchDist, GestureController.dist.
    cbn [GestureController.lm nth GestureController.pinchingOpenHand
         GestureController.x GestureController.y].
    replace (0.5 - 0.5) with 0 by lra.
    rewrite hypot_0_r_neg by lra. lra.
  - rewrite openCount_flags. unfold GestureController.fingerOpen,
      GestureController.dist.
    cbn [GestureController.lm nth GestureController.pinchingOpenHand
         GestureController.x GestureController.y].
    rewrite !Rgtb_true by (apply hypot_lt; lra). reflexivity.
Qed.

Lemma fist_facts :
  GestureController.complete GestureController.fist
  /\ GestureController.pinchDist GestureController.fist = 0.1
  /\ GestureController.openCount GestureController.fist = 0%nat.
Proof.
  split; [unfold GestureController.complete; cbn; lia |]. split.
  - unfold GestureController.pinchDist, GestureController.dist.
    cbn [GestureController.lm nth GestureController.fist
         GestureController.x GestureController.y].
    replace (0.8 - 0.8) with 0 by lra.
    rewrite hypot_0_r_neg by lra. lra.
  - rewrite openCount_flags. unfold GestureController.fingerOpen,
      GestureController.dist.
    cbn [GestureController.lm nth GestureController.fist
         GestureController.x GestureController.y].
    rewrite !Rgtb_false by (left; apply hypot_lt; lra). reflexivity.
Qed.

Lemma fingerOpen_iff (landmarks : list GestureController.Landmark)
      (tipIdx pipIdx : nat) :
  GestureController.fingerOpen landmarks tipIdx pipIdx = true
  <-> GestureController.dist (GestureController.lm landmarks tipIdx)
                             (GestureController.lm landmarks 0)
      > GestureController.dist (GestureController.lm landmarks pipIdx)
                               (GestureController.lm landmarks 0).
Proof.
  unfold GestureController.fingerOpen, Rgtb.
  destruct (Rgt_dec _ _); split; intros H;
    [assumption | reflexivity | discriminate | contradiction].
Qed.

(** C4.  For every complete sample of a present hand whose thumb tip
    and index tip are less than 0.05 apart, whatever the number of open
    fingers, the callback finishes with the pinch label, the magnify
    flag set, and the interaction state as it was before. *)
Theorem pinch_preempts_open_and_fist
        (env : GestureController.Env)
        (landmarks : list GestureController.Landmark)
        (others : list (list GestureController.Landmark))
        (w : GestureController.World) :
  GestureController.mounted env ->
  GestureController.complete landmarks ->
  GestureController.pinchDist landmarks < 0.05 ->
  exists w',
    GestureController.onResults env
      (GestureController.mkResults (Some (landmarks :: others))) w
    = GestureController.Ok tt w'
    /\ GestureController.gestureLabel w' = "CATCH"%string
    /\ App.isMagnified (GestureController.app w') = true
    /\ App.treeState (GestureController.app w')
       = App.treeState (GestureController.app w).
Proof.
  intros Henv Hl Hp. eexists. split.
  - apply onResults_complete; assumption.
  - unfold GestureController.afterHand.
    rewrite (Rltb_true _ _ Hp). repeat split.
Qed.

Lemma pinch_preempts_open_and_fist_witness :
  GestureController.pinchDist GestureController.pinchingOpenHand = 0.03
  /\ GestureController.openCount GestureController.pinchingOpenHand = 5%nat
  /\ exists w',
      GestureController.onResults GestureController.allMounted
        (GestureController.mkResults
           (Some [GestureController.pinchingOpenHand]))
        GestureController.startWorld
      = GestureController.Ok tt w'
      /\ GestureController.gestureLabel w' = "CATCH"%string
      /\ App.isMagnified (GestureController.app w') = true
      /\ App.treeState (GestureController.app w')
         = App.treeState (GestureController.app GestureController.startWorld).
Proof.
  destruct pinchingOpenHand_facts as (Hc & Hp & Ho).
  split; [exact Hp | split; [exact Ho |]].
  apply (pinch_preempts_open_and_fist GestureController.allMounted
           GestureController.pinchingOpenHand []
           GestureController.startWorld allMounted_mounted Hc).
  rewrite Hp. lra.
Defined.

(** C5.  For every complete sample of a present hand whose thumb tip
    and index tip are at least 0.05 apart, with [openCount] the number
    of the five fingers whose tip is strictly farther from the wrist
    than its lower joint: the callback finishes with the magnify flag
    cleared; an [openCount] of at most 1 sets the state TREE_SHAPE, an
    [openCount] of at least 4 sets the state SCATTERED, and an
    [openCount] of 2 or 3 gives the label TRACKING and leaves the state
    as it was. *)
Theorem open_fist_classification
        (env : GestureController.Env)
        (landmarks : list GestureController.Landmark)
        (others : list (list GestureController.Landmark))
        (w : GestureController.World) :
  GestureController.mounted env ->
  GestureController.complete landmarks ->
  0.05 <= GestureController.pinchDist landmarks ->
  let n := GestureController.openCount landmarks in
  exists w',
    GestureController.onResults env
      (GestureController.mkResults (Some (landmarks :: others))) w
    = GestureController.Ok tt w'
    /\ App.isMagnified (GestureController.app w') = false
    /\ n = List.length
             (filter (fun f => GestureController.fingerOpen landmarks
                                 (fst f) (snd f))
                     GestureController.fingers)
    /\ (forall tipIdx pipIdx,
           GestureController.fingerOpen landmarks tipIdx pipIdx = true
           <-> GestureController.dist
                 (GestureController.lm landmarks tipIdx)
                 (GestureController.lm landmarks 0)
               > GestureController.dist
                   (GestureController.lm landmarks pipIdx)
                   (GestureController.lm landmarks 0))
    /\ (n <= 5)%nat
    /\ ((n <= 1)%nat ->
        App.treeState (GestureController.app w') = TREE_SHAPE
        /\ GestureController.gestureLabel w' = "FORM"%string)
    /\ ((4 <= n)%nat ->
        App.treeState (GestureController.app w') = SCATTERED
        /\ GestureController.gestureLabel w' = "UNLEASH"%string)
    /\ ((2 <= n <= 3)%nat ->
        App.treeState (GestureController.app w')
        = App.treeState (GestureController.app w)
        /\ GestureController.gestureLabel w' = "TRACKING"%string).
Proof.
  intros Henv Hl Hp n. eexists. split.
  - apply onResults_complete; assumption.
  - unfold GestureController.afterHand.
    rewrite (Rltb_false _ _ Hp). fold n.
    split.
    { destruct (n <=? 1)%nat; [| destruct (4 <=? n)%nat]; reflexivity. }
    split; [reflexivity |].
    split; [intros tipIdx pipIdx; apply fingerOpen_iff |].
    split; [apply openCount_le_5 |].
    split; [| split].
    + intros Hn. apply Nat.leb_le in Hn. rewrite Hn. split; reflexivity.
    + intros Hn.
      assert (H1 : (n <=? 1)%nat = false) by (apply Nat.leb_gt; lia).
      apply Nat.leb_le in Hn. rewrite H1, Hn. split; reflexivity.
    + intros Hn.
      assert (H1 : (n <=? 1)%nat = false) by (apply Nat.leb_gt; lia).
      assert (H4 : (4 <=? n)%nat = false) by (apply Nat.leb_gt; lia).
      rewrite H1, H4. split; reflexivity.
Qed.

Lemma open_fist_classification_witness :
  GestureController.openCount GestureController.fist = 0%nat
  /\ exists w',
      GestureController.onResults GestureController.allMounted
        (GestureController.mkResults (Some [GestureController.fist]))
        GestureController.magnifiedWorld
      = GestureController.Ok tt w'
      /\ App.isMagnified (GestureController.app w') = false
      /\ App.treeState (GestureController.app w') = TREE_SHAPE.
Proof.
  destruct fist_facts as (Hc & Hp & Ho).
  split; [exact Ho |].
  assert (Hge : 0.05 <= GestureController.pinchDist GestureController.fist)
    by (rewrite Hp; lra).
  destruct (open_fist_classification GestureController.allMounted
              GestureController.fist [] GestureController.magnifiedWorld
              allMounted_mounted Hc Hge)
    as (w' & Hrun & Hmag & _ & _ & _ & Hform & _).
  exists w'. split; [exact Hrun | split; [exact Hmag |]].
  apply Hform. rewrite Ho. lia.
Defined.

(** C6.  When the result holds no hand, the callback clears the hand
    position and the magnify flag and leaves the interaction state as it
    was. *)
Theorem no_hand_freezes_state
        (env : GestureController.Env) (results : GestureController.Results)
        (w : GestureController.World) :
  GestureController.mounted env ->
  GestureController.multiHandLandmarks results = None
  \/ GestureController.multiHandLandmarks results = Some [] ->
  exists w',
    GestureController.onResults env results w = GestureController.Ok tt w'
    /\ App.handPosition (GestureController.app w') = None
    /\ App.isMagnified (GestureController.app w') = false
    /\ GestureController.gestureLabel w' = "NO HAND"%string
    /\ App.treeState (GestureController.app w')
       = App.treeState (GestureController.app w).
Proof.
  intros Henv Hnone. eexists. split.
  - apply onResults_no_hand; assumption.
  - repeat split.
Qed.

Lemma no_hand_freezes_state_witness :
  exists w',
    GestureController.onResults GestureController.allMounted
      (GestureController.mkResults (Some []))
      GestureController.magnifiedWorld
    = GestureController.Ok tt w'
    /\ App.handPosition (GestureController.app w') = None
    /\ App.isMagnified (GestureController.app w') = false
    /\ GestureController.gestureLabel w' = "NO HAND"%string
    /\ App.treeState (GestureController.app w') = SCATTERED.
Proof.
  apply (no_hand_freezes_state GestureController.allMounted
           (GestureController.mkResults (Some []))
           GestureController.magnifiedWorld allMounted_mounted).
  right. reflexivity.
Defined.

(** C7, as stated, fails: on a sample of 20 landmarks, received while
    the view is magnified and a hand position is set, the callback
    throws a TypeError and leaves the magnify flag and the hand position
    as they were, where the no-hand branch finishes normally with both
    cleared. *)
Lemma missing_joint_differs_from_no_hand :
  let missing :=
    GestureController.onResults GestureController.allMounted
      (GestureController.mkResults
         (Some [GestureController.withoutPinkyTip]))
      GestureController.magnifiedWorld in
  let noHand :=
    GestureController.onResults GestureController.allMounted
      (GestureController.mkResults None)
      GestureController.magnifiedWorld in
  List.length GestureController.withoutPinkyTip = 20%nat
  /\ missing = GestureController.Throw GestureController.TypeError
                 GestureController.magnifiedWorld
  /\ App.isMagnified
       (GestureController.app GestureController.magnifiedWorld) = true
  /\ App.handPosition
       (GestureController.app GestureController.magnifiedWorld)
     = Some (0.2, 0.1)
  /\ noHand = GestureController.Ok tt
                (GestureController.afterNoHand
                   GestureController.magnifiedWorld)
  /\ missing <> noHand.
Proof.
  cbv zeta.
  assert (Hm : GestureController.onResults GestureController.allMounted
                 (GestureController.mkResults
                    (Some [GestureController.withoutPinkyTip]))
                 GestureController.magnifiedWorld
               = GestureController.Throw GestureController.TypeError
                   GestureController.magnifiedWorld).
  { rewrite onResults_incomplete;
      [reflexivity | exact allMounted_mounted | cbn; lia]. }
  assert (Hn : GestureController.onResults GestureController.allMounted
                 (GestureController.mkResults None)
                 GestureController.magnifiedWorld
               = GestureController.Ok tt
                   (GestureController.afterNoHand
                      GestureController.magnifiedWorld)).
  { apply onResults_no_hand; [exact allMounted_mounted | left; reflexivity]. }
  rewrite Hm, Hn.
  repeat split; discriminate.
Qed.

(** C7, amended.  On a sample with fewer than 21 landmarks the callback
    throws a TypeError before it calls any of the state-change,
    hand-move or magnify callbacks: the interaction state, the magnify
    flag, the hand position and the label keep their values, and only
    the status has been set to active. *)
Theorem missing_joint_throws
        (env : GestureController.Env)
        (landmarks : list GestureController.Landmark)
        (others : list (list GestureController.Landmark))
        (w : GestureController.World) :
  GestureController.mounted env ->
  (List.length landmarks < 21)%nat ->
  exists w',
    GestureController.onResults env
      (GestureController.mkResults (Some (landmarks :: others))) w
    = GestureController.Throw GestureController.TypeError w'
    /\ GestureController.app w' = GestureController.app w
    /\ GestureController.gestureLabel w' = GestureController.gestureLabel w
    /\ GestureController.status w' = GestureController.active.
Proof.
  intros Henv Hl. eexists. split.
  - apply onResults_incomplete; assumption.
  - repeat split.
Qed.

Lemma missing_joint_throws_witness :
  exists w',
    GestureController.onResults GestureController.allMounted
      (GestureController.mkResults
         (Some [GestureController.withoutPinkyTip]))
      GestureController.startWorld
    = GestureController.Throw GestureController.TypeError w'
    /\ GestureController.app w'
       = GestureController.app GestureController.startWorld
    /\ GestureController.gestureLabel w'
       = GestureController.gestureLabel GestureController.startWorld
    /\ GestureController.status w' = GestureController.active.
Proof.
  apply (missing_joint_throws GestureController.allMounted
           GestureController.withoutPinkyTip []
           GestureController.startWorld allMounted_mounted).
  cbn. lia.
Defined.

(** * Further properties of the code *)

(** ** [src/utils/math.ts]: the tree samplers and [normalizeValue] *)

Lemma pow_unit (u y : R) : 0 <= u <= 1 -> 0 < y -> 0 <= Math.pow u y <= 1.
Proof.
  intros [H0 H1] Hy. unfold Math.pow.
  destruct (total_order_T u 0) as [[Hneg | Hz] | Hpos]; [lra | lra |].
  unfold Rpower. split; [left; apply exp_pos |].
  assert (Hln : ln u <= 0).
  { destruct H1 as [Hlt | ->]; [| rewrite ln_1; lra].
    rewrite <- ln_1. left. apply ln_increasing; assumption. }
  rewrite <- exp_0.
  destruct (Rle_lt_or_eq_dec _ _ Hln) as [Hlt | Heq].
  - left. apply exp_increasing. nra.
  - rewrite Heq, Rmult_0_r. lra.
Qed.

(** Raising a draw to a power above 1 never increases it. *)
Lemma pow_le_base (u y : R) : 0 <= u <= 1 -> 1 <= y -> Math.pow u y <= u.
Proof.
  intros [H0 H1] Hy. unfold Math.pow.
  destruct (total_order_T u 0) as [[Hneg | Hz] | Hpos]; [lra | lra |].
  unfold Rpower.
  assert (Hln : ln u <= 0).
  { destruct H1 as [Hlt | ->]; [| rewrite ln_1; lra].
    rewrite <- ln_1. left. apply ln_increasing; assumption. }
  rewrite <- (exp_ln u Hpos) at 2.
  destruct (Req_dec (y * ln u) (ln u)) as [-> | Hne]; [lra |].
  left. apply exp_increasing. nra.
Qed.

Lemma pow_1_strict (u y : R) : 0 < u < 1 -> 1 < y -> Math.pow u y < u.
Proof.
  intros [H0 H1] Hy. unfold Math.pow.
  destruct (total_order_T u 0) as [[Hneg | Hz] | Hpos]; [lra | lra |].
  unfold Rpower.
  assert (Hln : ln u < 0).
  { rewrite <- ln_1. apply ln_increasing; assumption. }
  rewrite <- (exp_ln u Hpos) at 2.
  apply exp_increasing. nra.
Qed.

(** A point at distance [d >= 0] from the axis, at angle [theta]. *)
Lemma axisDist_polar (d y theta : R) :
  0 <= d -> axisDist (d * cos theta, y, d * sin theta) = d.
Proof.
  intros Hd. unfold axisDist, fst3, thd3. cbn [fst snd].
  assert (Ht := sin2_cos2 theta). unfold Rsqr in Ht.
  replace (d * cos theta * (d * cos theta) + d * sin theta * (d * sin theta))
    with (d * d * (sin theta * sin theta + cos theta * cos theta)) by ring.
  rewrite Ht, Rmult_1_r. apply sqrt_square. exact Hd.
Qed.

(** The shape both tree samplers share: a point at height fraction [f]
    of the cone. *)
Lemma cone_point_bounds (height radiusBase f t : R) :
  0 < height -> 0 <= radiusBase -> 0 <= f <= 1 -> 0 <= t ->
  let r := (height - f * height) / height * radiusBase in
  r = (1 - f) * radiusBase /\ 0 <= r + t <= radiusBase + t.
Proof.
  intros Hh Hr Hf Ht r.
  assert (E : r = (1 - f) * radiusBase) by (unfold r; field; lra).
  split; [exact E |]. rewrite E. nra.
Qed.

(** [getTreePoint]: the sampled point lies in the cone, thickened by at
    most 0.8: its height above the base is the fraction [a] of the
    cone's height, and its distance from the axis is the cone's radius
    at that height plus a thickness below 0.8. *)
Theorem getTreePoint_in_cone (height radiusBase yOffset a b c : R) :
  0 < height -> 0 <= radiusBase -> draw a -> draw b -> draw c ->
  let p := getTreePoint height radiusBase yOffset a b c in
  let y := snd3 p in
  yOffset <= y < yOffset + height
  /\ axisDist p = (1 - (y - yOffset) / height) * radiusBase + c * 0.8
  /\ 0 <= axisDist p < radiusBase + 0.8.
Proof.
  intros Hh Hr Ha Hb Hc p y. unfold draw in Ha, Hb, Hc.
  destruct (cone_point_bounds height radiusBase a (c * 0.8) Hh Hr
              ltac:(lra) ltac:(lra)) as [E Hb'].
  assert (Hy : y = a * height + yOffset) by reflexivity.
  assert (Hd : axisDist p
               = (height - a * height) / height * radiusBase + c * 0.8).
  { unfold p, getTreePoint. cbv zeta. apply axisDist_polar. lra. }
  split; [rewrite Hy; nra |].
  split.
  - rewrite Hd, E, Hy. f_equal. f_equal. field. lra.
  - rewrite Hd. lra.
Qed.

Lemma getTreePoint_in_cone_witness :
  0 < 16 /\ 0 <= 7.5 /\ draw 0.5 /\ draw 0.25 /\ draw 0.5
  /\ 0 <= axisDist (getTreePoint 16 7.5 (-8) 0.5 0.25 0.5) < 7.5 + 0.8.
Proof.
  assert (H1 : 0 < 16) by lra.
  assert (H2 : 0 <= 7.5) by lra.
  assert (H3 : draw 0.5) by (unfold draw; lra).
  assert (H4 : draw 0.25) by (unfold draw; lra).
  repeat (split; [assumption |]).
  exact (proj2 (proj2 (getTreePoint_in_cone 16 7.5 (-8) 0.5 0.25 0.5
                         H1 H2 H3 H4 H3))).
Defined.

(** [getDenseBottomTreePoint]: the sampled point lies in the cone,
    thickened by at most 0.5, and is never higher than the point
    [getTreePoint] samples from the same draws; for a first draw strictly
    between 0 and 1 it is strictly lower. *)
Theorem getDenseBottomTreePoint_in_cone_and_lower
        (height radiusBase yOffset a b c : R) :
  0 < height -> 0 <= radiusBase -> draw a -> draw b -> draw c ->
  let p := getDenseBottomTreePoint height radiusBase yOffset a b c in
  let q := getTreePoint height radiusBase yOffset a b c in
  let y := snd3 p in
  yOffset <= y < yOffset + height
  /\ axisDist p = (1 - (y - yOffset) / height) * radiusBase + c * 0.5
  /\ 0 <= axisDist p < radiusBase + 0.5
  /\ y <= snd3 q
  /\ (0 < a -> y < snd3 q).
Proof.
  intros Hh Hr Ha Hb Hc p q y. unfold draw in Ha, Hb, Hc.
  destruct (pow_unit a 1.5 ltac:(lra) ltac:(lra)) as [Hp0 Hp1].
  assert (Hle : Math.pow a 1.5 <= a) by (apply pow_le_base; lra).
  destruct (cone_point_bounds height radiusBase (Math.pow a 1.5) (c * 0.5)
              Hh Hr ltac:(lra) ltac:(lra)) as [E Hb'].
  assert (Hy : y = Math.pow a 1.5 * height + yOffset) by reflexivity.
  assert (Hq : snd3 q = a * height + yOffset) by reflexivity.
  assert (Hd : axisDist p
               = (height - Math.pow a 1.5 * height) / height * radiusBase
                 + c * 0.5).
  { unfold p, getDenseBottomTreePoint. cbv zeta. apply axisDist_polar. lra. }
  split; [rewrite Hy; nra |].
  split; [rewrite Hd, E, Hy; f_equal; f_equal; field; lra |].
  split; [rewrite Hd; lra |].
  split; [rewrite Hy, Hq; nra |].
  intros Hpos. rewrite Hy, Hq.
  assert (Hlt : Math.pow a 1.5 < a) by (apply pow_1_strict; lra).
  nra.
Qed.

Lemma getDenseBottomTreePoint_in_cone_and_lower_witness :
  0 < 15.5 /\ 0 <= 7 /\ draw 0.5 /\ draw 0.25
  /\ snd3 (getDenseBottomTreePoint 15.5 7 (-7.5) 0.5 0.25 0.5)
     < snd3 (getTreePoint 15.5 7 (-7.5) 0.5 0.25 0.5).
Proof.
  assert (H1 : 0 < 15.5) by lra.
  assert (H2 : 0 <= 7) by lra.
  assert (H3 : draw 0.5) by (unfold draw; lra).
  assert (H4 : draw 0.25) by (unfold draw; lra).
  repeat (split; [assumption |]).
  apply (getDenseBottomTreePoint_in_cone_and_lower 15.5 7 (-7.5)
           0.5 0.25 0.5 H1 H2 H3 H4 H3).
  lra.
Defined.

(** [normalizeValue] and [lerp] are inverse to each other on a range
    with distinct ends. *)
Theorem normalizeValue_lerp_inverse (min max t val : R) :
  min <> max ->
  normalizeValue (THREE.lerp min max t) min max = t
  /\ THREE.lerp min max (normalizeValue val min max) = val.
Proof.
  intros Hne. unfold normalizeValue, THREE.lerp. split; field; lra.
Qed.

Lemma normalizeValue_lerp_inverse_witness :
  2 <> 6 /\ normalizeValue (THREE.lerp 2 6 0.25) 2 6 = 0.25.
Proof.
  assert (H : 2 <> 6) by lra.
  split; [exact H |].
  exact (proj1 (normalizeValue_lerp_inverse 2 6 0.25 0 H)).
Defined.

(** [normalizeValue] maps the range [[min, max]] onto [[0, 1]] and
    nothing else into it, and preserves order. *)
Theorem normalizeValue_range (min max val val' : R) :
  min < max ->
  (0 <= normalizeValue val min max <= 1 <-> min <= val <= max)
  /\ normalizeValue min min max = 0
  /\ normalizeValue max min max = 1
  /\ (val <= val' <->
      normalizeValue val min max <= normalizeValue val' min max).
Proof.
  intros Hlt. unfold normalizeValue.
  assert (Hd : 0 < max - min) by lra.
  assert (Hi : 0 < / (max - min)) by (apply Rinv_0_lt_compat; exact Hd).
  assert (Hone : (max - min) * / (max - min) = 1) by (field; lra).
  unfold Rdiv.
  repeat split; intros; nra.
Qed.

Lemma normalizeValue_range_witness :
  0 < 10 /\ normalizeValue 10 0 10 = 1.
Proof.
  assert (H : 0 < 10) by lra.
  split; [exact H |].
  exact (proj1 (proj2 (proj2 (normalizeValue_range 0 10 0 0 H)))).
Defined.

(** ** The foliage shader *)

Lemma pow_cube (b : R) : 0 <= b -> Math.pow b 3.0 = b * b * b.
Proof.
  intros Hb. unfold Math.pow.
  destruct (total_order_T b 0) as [[Hneg | ->] | Hpos]; [lra | ring |].
  replace 3.0 with (INR 3) by (cbn; lra).
  rewrite Rpower_pow by exact Hpos. ring.
Qed.

Lemma cube_le (a b : R) : 0 <= a <= b -> a * a * a <= b * b * b.
Proof.
  intros [Ha Hab].
  assert (H2 : a * a <= b * b) by nra.
  assert (H3 : 0 <= a * a) by nra.
  nra.
Qed.

(** The two branches of [easeInOutCubic], with the power written out. *)
Lemma ease_low (x : R) :
  x < 0.5 -> Foliage.easeInOutCubic x = 4 * (x * x * x).
Proof.
  intros H. unfold Foliage.easeInOutCubic.
  rewrite (Rltb_true _ _ H). lra.
Qed.

Lemma ease_high (x : R) :
  0.5 <= x <= 1 ->
  Foliage.easeInOutCubic x = 1 - 4 * ((1 - x) * (1 - x) * (1 - x)).
Proof.
  intros [H0 H1]. unfold Foliage.easeInOutCubic, GLSL.pow.
  rewrite (Rltb_false _ _ H0), pow_cube by lra. lra.
Qed.

Lemma ease_range (x : R) :
  0 <= x <= 1 -> 0 <= Foliage.easeInOutCubic x <= 1.
Proof.
  intros [H0 H1]. destruct (Rlt_le_dec x 0.5) as [Hlt | Hge].
  - rewrite ease_low by exact Hlt.
    assert (Hc := cube_le x 0.5 ltac:(lra)).
    assert (Hz := cube_le 0 x ltac:(lra)). lra.
  - rewrite ease_high by lra.
    assert (Hc := cube_le (1 - x) 0.5 ltac:(lra)).
    assert (Hz := cube_le 0 (1 - x) ltac:(lra)). lra.
Qed.

(** [easeInOutCubic] keeps the ends and the middle of [[0,1]] fixed,
    stays inside [[0,1]], never decreases, and is symmetric about the
    middle. *)
Theorem easeInOutCubic_shape (x y : R) :
  0 <= x <= y -> y <= 1 ->
  Foliage.easeInOutCubic 0 = 0
  /\ Foliage.easeInOutCubic 0.5 = 0.5
  /\ Foliage.easeInOutCubic 1 = 1
  /\ 0 <= Foliage.easeInOutCubic x <= 1
  /\ Foliage.easeInOutCubic x <= Foliage.easeInOutCubic y
  /\ Foliage.easeInOutCubic (1 - x) = 1 - Foliage.easeInOutCubic x.
Proof.
  intros [H0 Hxy] H1.
  split; [rewrite ease_low by lra; lra |].
  split; [rewrite ease_high by lra; lra |].
  split; [rewrite ease_high by lra; lra |].
  split; [apply ease_range; lra |].
  split.
  - destruct (Rlt_le_dec y 0.5) as [Hy | Hy].
    + rewrite !ease_low by lra.
      assert (Hc := cube_le x y ltac:(lra)). lra.
    + destruct (Rlt_le_dec x 0.5) as [Hx | Hx].
      * rewrite (ease_low x), (ease_high y) by lra.
        assert (Hc := cube_le x 0.5 ltac:(lra)).
        assert (Hd := cube_le (1 - y) 0.5 ltac:(lra)). lra.
      * rewrite !ease_high by lra.
        assert (Hc := cube_le (1 - y) (1 - x) ltac:(lra)). lra.
  - destruct (Rlt_le_dec x 0.5) as [Hx | Hx].
    + rewrite (ease_low x), (ease_high (1 - x)) by lra.
      replace (1 - (1 - x)) with x by ring. ring.
    + destruct (Rle_lt_or_eq_dec _ _ Hx) as [Hlt | <-].
      * rewrite (ease_low (1 - x)), (ease_high x) by lra. ring.
      * replace (1 - 0.5) with 0.5 by lra.
        rewrite ease_high by lra. lra.
Qed.

Lemma easeInOutCubic_shape_witness :
  0 <= 0.25 <= 0.75 /\ 0.75 <= 1
  /\ Foliage.easeInOutCubic 0.25 <= Foliage.easeInOutCubic 0.75.
Proof.
  assert (H1 : 0 <= 0.25 <= 0.75) by lra.
  assert (H2 : 0.75 <= 1) by lra.
  split; [exact H1 | split; [exact H2 |]].
  exact (proj1 (proj2 (proj2 (proj2 (proj2
           (easeInOutCubic_shape 0.25 0.75 H1 H2)))))).
Defined.

Lemma mix_between (a b t : R) :
  0 <= t <= 1 -> between a b (GLSL.mix a b t).
Proof.
  intros Ht. unfold between, GLSL.mix, Rmin, Rmax.
  destruct (Rle_dec a b); nra.
Qed.

(** For a morph factor in [[0,1]] the foliage blend of a particle lies
    between its scatter and its tree position, at the scatter position
    for factor 0 and at the tree position for factor 1; the drawn
    position is at most 0.05 from the blend in x, at most 0.1 in y, and
    equal in z; the particle's alpha is between 0.6 and 1. *)
Theorem foliage_stays_between
        (uTime uMorphFactor aRandom : R) (aTreePos aScatterPos : Vector3) :
  0 <= uMorphFactor <= 1 ->
  let b := Foliage.blend uMorphFactor aTreePos aScatterPos in
  let p := Foliage.finalPos uTime uMorphFactor aRandom aTreePos aScatterPos in
  between3 aScatterPos aTreePos b
  /\ Foliage.blend 0 aTreePos aScatterPos = aScatterPos
  /\ Foliage.blend 1 aTreePos aScatterPos = aTreePos
  /\ Rabs (vx p - vx b) <= 0.05
  /\ Rabs (vy p - vy b) <= 0.1
  /\ vz p = vz b
  /\ 0.6 <= Foliage.vAlpha uMorphFactor <= 1.
Proof.
  intros Hm b p.
  assert (Hr := ease_range uMorphFactor Hm).
  assert (E0 : Foliage.easeInOutCubic 0 = 0) by (rewrite ease_low; lra).
  assert (E1 : Foliage.easeInOutCubic 1 = 1) by (rewrite ease_high; lra).
  split; [repeat split; apply mix_between; exact Hr |].
  split.
  { unfold Foliage.blend, GLSL.mix3, GLSL.mix. cbv zeta. rewrite E0.
    destruct aScatterPos; cbn. f_equal; ring. }
  split.
  { unfold Foliage.blend, GLSL.mix3, GLSL.mix. cbv zeta. rewrite E1.
    destruct aTreePos; cbn. f_equal; ring. }
  split.
  { unfold p, Foliage.finalPos. cbv zeta. cbn [vx]. fold b.
    assert (Hc := COS_bound (uTime + aRandom * 5.0)).
    replace (vx b + cos (uTime + aRandom * 5.0) * 0.05 - vx b)
      with (cos (uTime + aRandom * 5.0) * 0.05) by ring.
    apply Rabs_le. lra. }
  split.
  { unfold p, Foliage.finalPos. cbv zeta. cbn [vy]. fold b.
    assert (Hs := SIN_bound (uTime * 2.0 + aRandom * 10.0)).
    replace (vy b + sin (uTime * 2.0 + aRandom * 10.0) * 0.1 - vy b)
      with (sin (uTime * 2.0 + aRandom * 10.0) * 0.1) by ring.
    apply Rabs_le. lra. }
  split; [reflexivity |].
  unfold Foliage.vAlpha. cbv zeta. lra.
Qed.

Lemma foliage_stays_between_witness :
  0 <= 0.5 <= 1
  /\ 0.6 <= Foliage.vAlpha 0.5 <= 1.
Proof.
  assert (H : 0 <= 0.5 <= 1) by lra.
  split; [exact H |].
  exact (proj2 (proj2 (proj2 (proj2 (proj2 (proj2
           (foliage_stays_between 0 0.5 0 (mkVector3 1 0 0)
              (mkVector3 0 0 0) H))))))).
Defined.

(** ** The spiral-trail shader *)

Lemma floor_spec (x : R) : GLSL.floor x <= x < GLSL.floor x + 1.
Proof.
  unfold GLSL.floor. destruct (base_Int_part x) as [Hle Hgt]. lra.
Qed.

Lemma floor_shift (x : R) (k : Z) :
  GLSL.floor (x + IZR k) = GLSL.floor x + IZR k.
Proof.
  unfold GLSL.floor. rewrite <- plus_IZR. f_equal. symmetry.
  apply Int_part_spec. rewrite plus_IZR.
  destruct (base_Int_part x) as [Hle Hgt]. lra.
Qed.

Lemma mod_1_range (x : R) : 0 <= GLSL.mod_ x 1.0 < 1.
Proof.
  unfold GLSL.mod_. replace (x / 1.0) with x by lra.
  destruct (floor_spec x). lra.
Qed.

Lemma mod_1_shift (x : R) (k : Z) :
  GLSL.mod_ (x + IZR k) 1.0 = GLSL.mod_ x 1.0.
Proof.
  unfold GLSL.mod_.
  replace ((x + IZR k) / 1.0) with (x + IZR k) by lra.
  replace (x / 1.0) with x by lra.
  rewrite floor_shift. lra.
Qed.

Lemma smoothstep_spec (e0 e1 x : R) :
  e0 < e1 ->
  0 <= GLSL.smoothstep e0 e1 x <= 1
  /\ (x <= e0 -> GLSL.smoothstep e0 e1 x = 0)
  /\ (e1 <= x -> GLSL.smoothstep e0 e1 x = 1).
Proof.
  intros He. unfold GLSL.smoothstep. cbv zeta.
  set (q := (x - e0) / (e1 - e0)).
  assert (Hi : 0 < / (e1 - e0)) by (apply Rinv_0_lt_compat; lra).
  assert (Hone : (e1 - e0) * / (e1 - e0) = 1) by (field; lra).
  assert (Hq0 : x <= e0 -> q <= 0) by (intros; unfold q, Rdiv; nra).
  assert (Hq1 : e1 <= x -> 1 <= q) by (intros; unfold q, Rdiv; nra).
  assert (Ht : 0 <= GLSL.clamp q 0 1 <= 1
               /\ (q <= 0 -> GLSL.clamp q 0 1 = 0)
               /\ (1 <= q -> GLSL.clamp q 0 1 = 1)).
  { unfold GLSL.clamp, Rmin, Rmax.
    destruct (Rle_dec q 0); destruct (Rle_dec _ 1);
      repeat split; intros; lra. }
  destruct Ht as (Hr & Hlo & Hhi).
  set (t := GLSL.clamp q 0 1) in *.
  split.
  { assert (Hlow : 0 <= t * t * (3 - 2 * t))
      by (apply Rmult_le_pos; [apply Rmult_le_pos |]; lra).
    assert (Hup : 0 <= (1 - t) * (1 - t) * (1 + 2 * t))
      by (apply Rmult_le_pos; [apply Rmult_le_pos |]; lra).
    replace ((1 - t) * (1 - t) * (1 + 2 * t))
      with (1 - t * t * (3 - 2 * t)) in Hup by ring.
    lra. }
  split; intros H.
  - rewrite (Hlo (Hq0 H)). ring.
  - rewrite (Hhi (Hq1 H)). ring.
Qed.

Lemma spiral_height (uTime aIndex : R) :
  let c := SpiralTrail.cycle uTime aIndex in
  0 <= c < 1 /\ vy (SpiralTrail.treePos uTime aIndex) = -8 + c * 18.
Proof.
  intros c. split; [apply mod_1_range |].
  unfold SpiralTrail.treePos. cbv zeta. cbn [vy]. fold c. lra.
Qed.

(** The spiral point of every particle at every time lies on the cone
    of the trail: its cycle is in [[0,1)], its height in [[-8,10)], and
    its distance from the axis, which is between 0.5 and 9.5, falls
    linearly with the height. *)
Theorem spiral_point_on_cone (uTime aIndex : R) :
  let c := SpiralTrail.cycle uTime aIndex in
  let p := SpiralTrail.treePos uTime aIndex in
  let d := sqrt (vx p * vx p + vz p * vz p) in
  0 <= c < 1
  /\ vy p = -8 + c * 18
  /\ -8 <= vy p < 10
  /\ d = 9 * (1 - c) + 0.5
  /\ 0.5 < d <= 9.5
  /\ d = 9.5 - (vy p + 8) / 2.
Proof.
  intros c p d.
  assert (Hc : 0 <= c < 1) by apply mod_1_range.
  assert (Hy : vy p = -8 + c * 18).
  { unfold p, SpiralTrail.treePos. cbv zeta. cbn [vy]. fold c. lra. }
  assert (Hd : d = 9 * (1 - c) + 0.5).
  { unfold d, p, SpiralTrail.treePos. cbv zeta. cbn [vx vz]. fold c.
    set (a := c * SpiralTrail.PI * 12.0).
    set (r := 9.0 * (1.0 - c) + 0.5).
    assert (Ht := sin2_cos2 a). unfold Rsqr in Ht.
    replace (cos a * r * (cos a * r) + sin a * r * (sin a * r))
      with (r * r * (sin a * sin a + cos a * cos a)) by ring.
    rewrite Ht, Rmult_1_r, sqrt_square by (unfold r; lra).
    unfold r. lra. }
  repeat split; try lra.
Qed.

(** The trail repeats: shifting the time by a whole number of periods
    of 20/3 seconds, or the index attribute by a whole number, leaves
    the spiral point where it was. *)
Theorem spiral_is_periodic (uTime aIndex : R) (k : Z) :
  SpiralTrail.treePos (uTime + 20 / 3 * IZR k) aIndex
  = SpiralTrail.treePos uTime aIndex
  /\ SpiralTrail.treePos uTime (aIndex + IZR k)
     = SpiralTrail.treePos uTime aIndex.
Proof.
  assert (H1 : SpiralTrail.cycle (uTime + 20 / 3 * IZR k) aIndex
               = SpiralTrail.cycle uTime aIndex).
  { unfold SpiralTrail.cycle.
    replace ((uTime + 20 / 3 * IZR k) * 0.15 + aIndex)
      with (uTime * 0.15 + aIndex + IZR k) by lra.
    apply mod_1_shift. }
  assert (H2 : SpiralTrail.cycle uTime (aIndex + IZR k)
               = SpiralTrail.cycle uTime aIndex).
  { unfold SpiralTrail.cycle.
    replace (uTime * 0.15 + (aIndex + IZR k))
      with (uTime * 0.15 + aIndex + IZR k) by lra.
    apply mod_1_shift. }
  unfold SpiralTrail.treePos. cbv zeta. rewrite H1, H2. split; reflexivity.
Qed.

Lemma length3_scaled_unit (v : Vector3) (s : R) :
  0 < GLSL.length3 v -> 0 <= s ->
  GLSL.length3 (GLSL.scale3 (GLSL.normalize v) s) = s.
Proof.
  intros Hl Hs. unfold GLSL.scale3, GLSL.normalize. cbn [vx vy vz].
  set (L := GLSL.length3 v) in *.
  assert (Hsq : L * L = vx v * vx v + vy v * vy v + vz v * vz v).
  { unfold L, GLSL.length3. apply sqrt_sqrt.
    assert (H1 := Rle_0_sqr (vx v)). assert (H2 := Rle_0_sqr (vy v)).
    assert (H3 := Rle_0_sqr (vz v)). unfold Rsqr in *. lra. }
  unfold GLSL.length3 at 1. cbn [vx vy vz].
  replace (vx v / L * s * (vx v / L * s) + vy v / L * s * (vy v / L * s)
           + vz v / L * s * (vz v / L * s))
    with (s * s * ((vx v * vx v + vy v * vy v + vz v * vz v) / (L * L)))
    by (field; lra).
  rewrite <- Hsq.
  replace (L * L / (L * L)) with 1 by (field; lra).
  rewrite Rmult_1_r. apply sqrt_square. exact Hs.
Qed.

(** When a trail particle is not at the origin, its scatter position is
    at distance [20 + 10 * aRandom] from the origin, between 20 and 30
    for an attribute in [[0,1]]; the drawn position is the scatter
    position at morph factor 0 and the trail position at factor 1. *)
Theorem spiral_scatter_distance (uTime aIndex aRandom : R) :
  0 <= aRandom <= 1 ->
  0 < GLSL.length3 (SpiralTrail.trailPos uTime aIndex aRandom) ->
  let s := SpiralTrail.scatterPos uTime aIndex aRandom in
  GLSL.length3 s = 20 + aRandom * 10
  /\ 20 <= GLSL.length3 s <= 30
  /\ SpiralTrail.finalPos uTime 0 aIndex aRandom = s
  /\ SpiralTrail.finalPos uTime 1 aIndex aRandom
     = SpiralTrail.trailPos uTime aIndex aRandom.
Proof.
  intros Hr Hl s.
  assert (E : GLSL.length3 s = 20 + aRandom * 10).
  { unfold s, SpiralTrail.scatterPos.
    rewrite length3_scaled_unit by (assumption || lra). lra. }
  split; [exact E |]. split; [rewrite E; lra |].
  unfold SpiralTrail.finalPos, GLSL.mix3, GLSL.mix. fold s.
  destruct s as [sx sy sz].
  destruct (SpiralTrail.trailPos uTime aIndex aRandom) as [tx ty tz].
  cbn [vx vy vz]. split; f_equal; ring.
Qed.

Lemma spiral_scatter_distance_witness :
  0 <= 0 <= 1
  /\ 0 < GLSL.length3 (SpiralTrail.trailPos 0 0 0)
  /\ GLSL.length3 (SpiralTrail.scatterPos 0 0 0) = 20 + 0 * 10.
Proof.
  assert (H1 : 0 <= 0 <= 1) by lra.
  assert (H2 : 0 < GLSL.length3 (SpiralTrail.trailPos 0 0 0)).
  { unfold GLSL.length3. apply sqrt_lt_R0.
    destruct (spiral_height 0 0) as (Hc & Hy).
    cbv zeta in Hc, Hy.
    unfold SpiralTrail.trailPos, GLSL.add3, SpiralTrail.jitter.
    cbv zeta. cbn [vx vy vz]. rewrite Hy.
    set (c := SpiralTrail.cycle 0 0) in *.
    set (a := vx (SpiralTrail.treePos 0 0) + cos (0 * 150.0) * (0.8 * 0)).
    set (b := vz (SpiralTrail.treePos 0 0) + sin (0 * 40.0) * (0.8 * 0)).
    assert (Ha := Rle_0_sqr a). assert (Hb := Rle_0_sqr b).
    unfold Rsqr in Ha, Hb.
    assert (Hy2 : 0 < (-8 + c * 18 + sin (0 * 80.0) * (0.8 * 0))
                      * (-8 + c * 18 + sin (0 * 80.0) * (0.8 * 0))).
    { replace (-8 + c * 18 + sin (0 * 80.0) * (0.8 * 0))
        with (-8 + c * 18) by ring.
      unfold c, SpiralTrail.cycle, GLSL.mod_, GLSL.floor.
      replace ((0 * 0.15 + 0) / 1.0) with 0 by lra.
      replace (Int_part 0) with 0%Z
        by (apply Int_part_spec; cbn; lra).
      lra. }
    lra. }
  split; [exact H1 | split; [exact H2 |]].
  exact (proj1 (spiral_scatter_distance 0 0 0 H1 H2)).
Defined.

(** The alpha of a trail particle is between 0 and 1, is 0 at the start
    of the cycle, and is at least 0.4 in the part of the cycle from 0.1
    to 0.95; its size is between 0 and 25 for an attribute in [[0,1]]. *)
Theorem spiral_alpha_and_size (uTime aIndex aRandom : R) :
  0 <= aRandom <= 1 ->
  let c := SpiralTrail.cycle uTime aIndex in
  0 <= SpiralTrail.vAlpha uTime aIndex aRandom <= 1
  /\ (c = 0 -> SpiralTrail.vAlpha uTime aIndex aRandom = 0)
  /\ (0.1 <= c <= 0.95 -> 0.4 <= SpiralTrail.vAlpha uTime aIndex aRandom)
  /\ 0 <= SpiralTrail.size uTime aIndex aRandom <= 25.
Proof.
  intros Hr c.
  assert (Hc : 0 <= c < 1) by apply mod_1_range.
  destruct (smoothstep_spec 0.0 0.1 c ltac:(lra)) as (Ha & Ha0 & Ha1).
  destruct (smoothstep_spec 0.95 1.0 c ltac:(lra)) as (Hb & Hb0 & Hb1).
  assert (Ht := SIN_bound (uTime * 4.0 + aRandom * 50.0)).
  unfold SpiralTrail.vAlpha, SpiralTrail.size. cbv zeta. fold c.
  set (A := GLSL.smoothstep 0.0 0.1 c) in *.
  set (B := GLSL.smoothstep 0.95 1.0 c) in *.
  set (T := sin (uTime * 4.0 + aRandom * 50.0)) in *.
  assert (HAB : 0 <= A * (1.0 - B) <= 1) by nra.
  split; [nra |]. split.
  - intros H0. rewrite (Ha0 ltac:(lra)). lra.
  - split; [| nra].
    intros [Hlo Hhi]. rewrite (Ha1 ltac:(lra)), (Hb0 ltac:(lra)). lra.
Qed.

Lemma spiral_alpha_and_size_witness :
  0 <= 0.5 <= 1 /\ 0 <= SpiralTrail.size 1 0.25 0.5 <= 25.
Proof.
  assert (H : 0 <= 0.5 <= 1) by lra.
  split; [exact H |].
  exact (proj2 (proj2 (proj2 (spiral_alpha_and_size 1 0.25 0.5 H)))).
Defined.

(** ** The star *)

(** What every frame of the star keeps. *)
Lemma star_frame_invariant (m delta : R) (st : Star.State) :
  vx (Star.position st) = 0 -> vz (Star.position st) = 0 ->
  let st' := Star.frame true true true m delta st in
  vx (Star.position st') = 0
  /\ vz (Star.position st') = 0
  /\ Star.coreRotationY st' + Star.outerRotationY st'
     = Star.coreRotationY st + Star.outerRotationY st
  /\ (0 <= m <= 1 -> 0 <= delta <= 0.5 ->
      0 <= vy (Star.position st) <= 18 ->
      0 <= vy (Star.position st') <= 18).
Proof.
  intros Hx Hz st'. unfold st', Star.frame, THREE.Vector3_lerp,
    THREE.lerpVectors, Star.scatterPos, Star.treePos.
  cbn [Star.position Star.coreRotationY Star.outerRotationY vx vy vz].
  rewrite Hx, Hz. repeat split; try lra; nra.
Qed.

(** Over any run of frames from the mounted state, the star stays on
    the vertical axis, and the turns of its core and of its outer shell
    about that axis cancel; for morph factors in [[0,1]] and frame times
    of at most half a second its height stays between 0 and 18. *)
Theorem star_stays_on_axis (ticks : list (R * R)) :
  let st := Star.frames ticks Star.initial in
  vx (Star.position st) = 0
  /\ vz (Star.position st) = 0
  /\ Star.coreRotationY st + Star.outerRotationY st = 0
  /\ (Forall (fun t => 0 <= fst t <= 1 /\ 0 <= snd t <= 0.5) ticks ->
      0 <= vy (Star.position st) <= 18).
Proof.
  cbv zeta.
  assert (Hgen : forall st0,
    vx (Star.position st0) = 0 -> vz (Star.position st0) = 0 ->
    vx (Star.position (Star.frames ticks st0)) = 0
    /\ vz (Star.position (Star.frames ticks st0)) = 0
    /\ Star.coreRotationY (Star.frames ticks st0)
       + Star.outerRotationY (Star.frames ticks st0)
       = Star.coreRotationY st0 + Star.outerRotationY st0
    /\ (Forall (fun t => 0 <= fst t <= 1 /\ 0 <= snd t <= 0.5) ticks ->
        0 <= vy (Star.position st0) <= 18 ->
        0 <= vy (Star.position (Star.frames ticks st0)) <= 18)).
  { induction ticks as [| [m d] rest IH]; intros st0 Hx Hz.
    - cbn. repeat split; try assumption; tauto.
    - cbn [Star.frames].
      destruct (star_frame_invariant m d st0 Hx Hz) as (Hx' & Hz' & Hr & Hy).
      destruct (IH _ Hx' Hz') as (Hx2 & Hz2 & Hr2 & Hy2).
      repeat split; try assumption.
      + rewrite Hr2. exact Hr.
      + apply Hy2; [inversion H; assumption |].
        inversion H as [| ? ? [Hm Hd] Hrest]; subst. cbn in Hm, Hd.
        apply Hy; assumption.
      + apply Hy2; [inversion H; assumption |].
        inversion H as [| ? ? [Hm Hd] Hrest]; subst. cbn in Hm, Hd.
        apply Hy; assumption. }
  destruct (Hgen Star.initial eq_refl eq_refl) as (Hx & Hz & Hr & Hy).
  repeat split; try assumption.
  - rewrite Hr. cbn. lra.
  - apply Hy; [assumption | cbn; lra].
  - apply Hy; [assumption | cbn; lra].
Qed.

Lemma star_stays_on_axis_witness :
  Forall (fun t => 0 <= fst t <= 1 /\ 0 <= snd t <= 0.5)
         [(0.5, 0.016); (1, 0.02)]
  /\ 0 <= vy (Star.position
                (Star.frames [(0.5, 0.016); (1, 0.02)] Star.initial)) <= 18.
Proof.
  assert (H : Forall (fun t => 0 <= fst t <= 1 /\ 0 <= snd t <= 0.5)
                     [(0.5, 0.016); (1, 0.02)])
    by (repeat constructor; cbn; lra).
  split; [exact H |].
  exact (proj2 (proj2 (proj2
           (star_stays_on_axis [(0.5, 0.016); (1, 0.02)]))) H).
Defined.

(** ** The hand control of the camera *)

Lemma length_setFromSpherical (r phi theta : R) :
  0 <= r ->
  THREE.length (THREE.setFromSpherical (THREE.mkSpherical r phi theta)) = r.
Proof.
  intros Hr. unfold THREE.length, THREE.setFromSpherical.
  cbn [THREE.radius THREE.phi THREE.theta vx vy vz].
  assert (Ht := sin2_cos2 theta). assert (Hp := sin2_cos2 phi).
  unfold Rsqr in Ht, Hp.
  replace (sin phi * r * sin theta * (sin phi * r * sin theta)
           + cos phi * r * (cos phi * r)
           + sin phi * r * cos theta * (sin phi * r * cos theta))
    with (r * r * (sin phi * sin phi
                   * (sin theta * sin theta + cos theta * cos theta)
                   + cos phi * cos phi)) by ring.
  rewrite Ht, Rmult_1_r, Hp, Rmult_1_r. apply sqrt_square. exact Hr.
Qed.

Lemma radius_setFromVector3 (v : Vector3) :
  THREE.radius (THREE.setFromVector3 v) = THREE.length v.
Proof.
  unfold THREE.setFromVector3. cbv zeta.
  destruct (Req_dec_T (THREE.length v) 0); reflexivity.
Qed.

Lemma polar_limits : 0.1 <= PI / 1.6.
Proof. assert (H := PI2_3_2). lra. Qed.

(** While a hand position is present, the controls exist and the view
    is not magnified, the frame callback moves the camera on the sphere
    it is on: the distance from the origin is kept, and the new polar
    angle is between 0.1 and [PI / 1.6], whatever the hand position and
    the frame time.  In every other case the camera is left where it
    is. *)
Theorem camera_hand_control
        (handPosition : option (R * R)) (controlsPresent isMagnified : bool)
        (delta : R) (cameraPosition : Vector3) :
  let c' := ExperienceCamera.frame handPosition controlsPresent isMagnified
              delta cameraPosition in
  THREE.length c' = THREE.length cameraPosition
  /\ (handPosition <> None -> controlsPresent = true ->
      isMagnified = false ->
      exists phi, 0.1 <= phi <= PI / 1.6
                  /\ vy c' = cos phi * THREE.length cameraPosition)
  /\ (handPosition = None \/ controlsPresent = false \/ isMagnified = true ->
      c' = cameraPosition).
Proof.
  intros c'. unfold c', ExperienceCamera.frame.
  destruct handPosition as [[hx hy] |];
    [destruct controlsPresent, isMagnified; cbn [andb negb] |];
    try (split; [reflexivity |]; split;
         [intros; congruence | intros; reflexivity]).
  cbv zeta. rewrite radius_setFromVector3.
  assert (Hl : 0 <= THREE.length cameraPosition) by apply sqrt_pos.
  split; [apply length_setFromSpherical; exact Hl |].
  split.
  - intros _ _ _. eexists. split; [| reflexivity].
    assert (H := polar_limits). cbn [THREE.phi].
    split_min_max; lra.
  - intros [H | [H | H]]; discriminate.
Qed.

Lemma camera_hand_control_witness :
  exists phi, 0.1 <= phi <= PI / 1.6
    /\ vy (ExperienceCamera.frame (Some (0.2, 0.1)) true false 0.016
             (mkVector3 0 6 28))
       = cos phi * THREE.length (mkVector3 0 6 28).
Proof.
  apply (proj1 (proj2 (camera_hand_control (Some (0.2, 0.1)) true false
                         0.016 (mkVector3 0 6 28))));
    [discriminate | reflexivity | reflexivity].
Defined.

(** ** The global morph update over runs of frames *)

Lemma frame_up (m d : R) :
  m <= 1 -> 0 <= d ->
  Experience.frame TREE_SHAPE m d = Rmin 1 (m + d * 1.5).
Proof.
  intros Hm Hd. rewrite frame_nextMorph. cbn [Experience.target
    TreeMorphState_eqb].
  destruct (Rle_lt_or_eq_dec _ _ Hm) as [Hlt | ->].
  - apply nextMorph_up. exact Hlt.
  - rewrite nextMorph_fixed. unfold Rmin.
    destruct (Rle_dec 1 (1 + d * 1.5)); lra.
Qed.

Lemma frame_down (m d : R) :
  0 <= m -> 0 <= d ->
  Experience.frame SCATTERED m d = Rmax 0 (m - d * 1.5).
Proof.
  intros Hm Hd. rewrite frame_nextMorph. cbn [Experience.target
    TreeMorphState_eqb].
  destruct (Rle_lt_or_eq_dec _ _ Hm) as [Hlt | <-].
  - apply nextMorph_down. exact Hlt.
  - rewrite nextMorph_fixed. unfold Rmax.
    destruct (Rle_dec 0 (0 - d * 1.5)); lra.
Qed.

(** Where a run of rounded frames ends, against one exact frame of the
    time the run takes. *)
Lemma rounded_run_error
      (rnd : R -> R) (u : R) (ts : TreeMorphState) (m : R)
      (deltas : list R) :
  Rounded.accurate u rnd ->
  0 <= m <= 1 ->
  Forall (fun d => 2 * u <= d * 1.5 <= 1 - u) deltas ->
  let e := 2 * INR (List.length deltas) * u in
  0 <= Rounded.total deltas
  /\ 0 <= e
  /\ Rabs (Rounded.frames rnd TREE_SHAPE m deltas
           - Rmin 1 (m + Rounded.total deltas * 1.5)) <= e
  /\ Rabs (Rounded.frames rnd SCATTERED m deltas
           - Rmax 0 (m - Rounded.total deltas * 1.5)) <= e.
Proof.
  intros Hr Hm Hall e.
  assert (Hu := accurate_nonneg u rnd Hr).
  assert (Hlow := total_lower u deltas Hall). fold e in Hlow.
  assert (He : 0 <= e).
  { unfold e. rewrite Rmult_assoc. apply Rmult_le_pos; [lra |].
    apply Rmult_le_pos; [apply pos_INR | exact Hu]. }
  destruct (rounded_frames_bounds rnd u deltas Hr Hall m Hm)
    as [Hup Hdown].
  cbv zeta in Hup, Hdown. fold e in Hup, Hdown.
  split; [lra | split; [exact He |]].
  split; apply Rabs_le.
  - revert Hup. split_min_max; lra.
  - revert Hdown. split_min_max; lra.
Qed.

(** The morph update does not depend on the frame rate beyond the
    rounding of its arithmetic: with an error of at most [u] per
    operation, a run of [k] frames under one interaction state stays in
    [[0,1]] and ends within [2 * k * u] of where a single exact frame of
    the summed frame time ends, namely of the start value moved by 1.5
    per second towards the target and stopped there. *)
Theorem morph_frame_rate_independent_up_to_rounding
        (rnd : R -> R) (u : R) (ts : TreeMorphState) (m : R)
        (deltas : list R) :
  Rounded.accurate u rnd ->
  0 <= m <= 1 ->
  Forall (fun d => 2 * u <= d * 1.5 <= 1 - u) deltas ->
  let total := Rounded.total deltas in
  let e := 2 * INR (List.length deltas) * u in
  0 <= Rounded.frames rnd ts m deltas <= 1
  /\ Rabs (Rounded.frames rnd ts m deltas - Experience.frame ts m total) <= e
  /\ Rabs (Rounded.frames rnd TREE_SHAPE m deltas
           - Rmin 1 (m + total * 1.5)) <= e
  /\ Rabs (Rounded.frames rnd SCATTERED m deltas
           - Rmax 0 (m - total * 1.5)) <= e.
Proof.
  intros Hr Hm Hall total e.
  destruct (rounded_run_error rnd u ts m deltas Hr Hm Hall)
    as (Ht & He & Hup & Hdown).
  fold total in Ht, Hup, Hdown. fold e in He, Hup, Hdown.
  split; [| split; [| split; assumption]].
  - destruct (rounded_frames_bounds rnd u deltas Hr Hall m Hm) as [H1 H2].
    cbv zeta in H1, H2. fold total in H1, H2. fold e in H1, H2.
    assert (Hlow := total_lower u deltas Hall). fold total e in Hlow.
    destruct ts; [revert H2 | revert H1]; split_min_max; lra.
  - destruct ts.
    + rewrite frame_down by lra. exact Hdown.
    + rewrite frame_up by lra. exact Hup.
Qed.

Lemma morph_frame_rate_independent_up_to_rounding_witness :
  Rounded.accurate (/ IZR (2 ^ 53)) Rounded.toGrid
  /\ 0 <= 0.25 <= 1
  /\ Forall (fun d => 2 * / IZR (2 ^ 53) <= d * 1.5 <= 1 - / IZR (2 ^ 53))
       [0.1; 0.2]
  /\ Rabs (Rounded.frames Rounded.toGrid TREE_SHAPE 0.25 [0.1; 0.2]
           - Experience.frame TREE_SHAPE 0.25 (Rounded.total [0.1; 0.2]))
     <= 2 * INR (List.length [0.1; 0.2]) * / IZR (2 ^ 53).
Proof.
  assert (Hg := grid_unit).
  assert (H1 : 0 <= 0.25 <= 1) by lra.
  assert (H2 : Forall
                 (fun d => 2 * / IZR (2 ^ 53) <= d * 1.5 <= 1 - / IZR (2 ^ 53))
                 [0.1; 0.2])
    by (repeat constructor; lra).
  split; [exact accurate_toGrid | split; [exact H1 | split; [exact H2 |]]].
  exact (proj1 (proj2 (morph_frame_rate_independent_up_to_rounding
                         Rounded.toGrid (/ IZR (2 ^ 53)) TREE_SHAPE 0.25
                         [0.1; 0.2] accurate_toGrid H1 H2))).
Defined.

(** When the target is reached.  With an error of at most [u] per
    operation and [e = 2 * k * u] for a run of [k] frames from a factor
    in [[0,1]]: the run ends exactly at the target of the interaction
    state if 1.5 times the summed frame time is at least the distance to
    the target plus [e], and short of the target if it is less than the
    distance minus [e]. *)
Theorem morph_arrival_window
        (rnd : R -> R) (u : R) (ts : TreeMorphState) (m : R)
        (deltas : list R) :
  Rounded.accurate u rnd ->
  0 <= m <= 1 ->
  Forall (fun d => 2 * u <= d * 1.5 <= 1 - u) deltas ->
  let total := Rounded.total deltas in
  let e := 2 * INR (List.length deltas) * u in
  (Rabs (Experience.target ts - m) + e <= total * 1.5 ->
   Rounded.frames rnd ts m deltas = Experience.target ts)
  /\ (total * 1.5 + e < Rabs (Experience.target ts - m) ->
      Rounded.frames rnd ts m deltas <> Experience.target ts).
Proof.
  intros Hr Hm Hall total e.
  destruct (rounded_frames_bounds rnd u deltas Hr Hall m Hm) as [Hup Hdown].
  cbv zeta in Hup, Hdown. fold total in Hup, Hdown. fold e in Hup, Hdown.
  destruct ts; cbn [Experience.target TreeMorphState_eqb].
  - split; revert Hdown; split_min_max; lra.
  - split; revert Hup; split_min_max; lra.
Qed.

Lemma morph_arrival_window_witness :
  Rounded.accurate (/ IZR (2 ^ 53)) Rounded.toGrid
  /\ 0 <= 1 <= 1
  /\ Forall (fun d => 2 * / IZR (2 ^ 53) <= d * 1.5 <= 1 - / IZR (2 ^ 53))
       [0.5; 0.25]
  /\ Rounded.frames Rounded.toGrid SCATTERED 1 [0.5; 0.25]
     = Experience.target SCATTERED.
Proof.
  assert (Hg := grid_unit).
  assert (H1 : 0 <= 1 <= 1) by lra.
  assert (H2 : Forall
                 (fun d => 2 * / IZR (2 ^ 53) <= d * 1.5 <= 1 - / IZR (2 ^ 53))
                 [0.5; 0.25])
    by (repeat constructor; lra).
  split; [exact accurate_toGrid | split; [exact H1 | split; [exact H2 |]]].
  apply (proj1 (morph_arrival_window Rounded.toGrid (/ IZR (2 ^ 53))
                  SCATTERED 1 [0.5; 0.25] accurate_toGrid H1 H2)).
  cbn [Experience.target TreeMorphState_eqb Rounded.total fold_right
       List.length INR].
  unfold Rabs. destruct (Rcase_abs (0 - 1)); lra.
Defined.

(** ** The ornaments: generation *)

Lemma hypot_factor (x y : R) :
  x <> 0 ->
  sqrt (x * x + y * y) = Rabs x * sqrt (1 + Rsqr (y / x)).
Proof.
  intros Hx. rewrite <- (sqrt_Rsqr_abs x), <- sqrt_mult.
  - f_equal. unfold Rsqr. field. exact Hx.
  - apply Rle_0_sqr.
  - assert (H := Rle_0_sqr (y / x)). lra.
Qed.

(** [Math.atan2 y x] is the angle of the point [(x, y)]. *)
Lemma atan2_polar (x y : R) :
  let h := sqrt (x * x + y * y) in
  0 < h ->
  cos (Math.atan2 y x) * h = x /\ sin (Math.atan2 y x) * h = y.
Proof.
  intros h Hh. unfold Math.atan2.
  destruct (total_order_T x 0) as [[Hneg | Hz] | Hpos].
  - assert (Hf := hypot_factor x y ltac:(lra)). fold h in Hf.
    rewrite (Rabs_left x Hneg) in Hf.
    assert (Hs : 0 < sqrt (1 + Rsqr (y / x))).
    { apply sqrt_lt_R0. assert (H := Rle_0_sqr (y / x)). lra. }
    assert (Hc := cos_atan (y / x)). assert (Hsn := sin_atan (y / x)).
    destruct (Rle_dec 0 y).
    + rewrite neg_cos, neg_sin, Hc, Hsn, Hf. split; field; lra.
    + replace (atan (y / x) - PI) with (- (- atan (y / x) + PI)) by ring.
      rewrite cos_neg, sin_neg, neg_cos, neg_sin, cos_neg, sin_neg, Hc, Hsn,
        Hf.
      split; field; lra.
  - subst x.
    assert (Hy : h = Rabs y).
    { unfold h. replace (0 * 0 + y * y) with (Rsqr y) by (unfold Rsqr; ring).
      apply sqrt_Rsqr_abs. }
    destruct (total_order_T y 0) as [[Hyn | Hyz] | Hyp].
    + rewrite cos_neg, sin_neg, cos_PI2, sin_PI2, Hy, (Rabs_left y Hyn).
      split; ring.
    + subst y. rewrite Rabs_R0 in Hy. lra.
    + rewrite cos_PI2, sin_PI2, Hy, (Rabs_right y) by lra. split; ring.
  - assert (Hf := hypot_factor x y ltac:(lra)). fold h in Hf.
    rewrite (Rabs_right x) in Hf by lra.
    assert (Hs : 0 < sqrt (1 + Rsqr (y / x))).
    { apply sqrt_lt_R0. assert (H := Rle_0_sqr (y / x)). lra. }
    rewrite cos_atan, sin_atan, Hf. split; field; lra.
Qed.

(** Moving a tree position outwards adds the offset to its distance
    from the axis and keeps its height. *)
Lemma pushOut_axisDist (p : R * R * R) (type : OrnamentType) :
  axisDist (OrnamentsSetup.pushOut p type)
  = axisDist p + OrnamentsSetup.offsetOf type
  /\ snd3 (OrnamentsSetup.pushOut p type) = snd3 p.
Proof.
  split; [| reflexivity].
  assert (Ho : 0 < OrnamentsSetup.offsetOf type) by (destruct type; cbn; lra).
  destruct p as [[x y] z].
  unfold OrnamentsSetup.pushOut, axisDist, fst3, snd3, thd3. cbn [fst snd].
  set (o := OrnamentsSetup.offsetOf type) in *.
  set (h := sqrt (x * x + z * z)).
  assert (Hh0 : 0 <= h) by apply sqrt_pos.
  destruct (Rle_lt_or_eq_dec _ _ Hh0) as [Hpos | Hzero].
  - destruct (atan2_polar x z Hpos) as [Hc Hs]. fold h in Hc, Hs.
    set (a := Math.atan2 z x) in *.
    assert (Hsq : h * h = x * x + z * z).
    { unfold h. apply sqrt_sqrt.
      assert (H1 := Rle_0_sqr x). assert (H2 := Rle_0_sqr z).
      unfold Rsqr in *. lra. }
    assert (Ht := sin2_cos2 a). unfold Rsqr in Ht.
    replace ((x + cos a * o) * (x + cos a * o)
             + (z + sin a * o) * (z + sin a * o))
      with ((h + o) * (h + o)).
    + apply sqrt_square. lra.
    + clearbody h a. subst x z.
      replace ((cos a * h + cos a * o) * (cos a * h + cos a * o)
               + (sin a * h + sin a * o) * (sin a * h + sin a * o))
        with ((sin a * sin a + cos a * cos a) * ((h + o) * (h + o)))
        by ring.
      rewrite Ht. ring.
  - assert (Hxz : x * x + z * z = 0).
    { assert (Hsq : h * h = x * x + z * z).
      { unfold h. apply sqrt_sqrt.
        assert (H1 := Rle_0_sqr x). assert (H2 := Rle_0_sqr z).
        unfold Rsqr in *. lra. }
      rewrite <- Hsq, <- Hzero. ring. }
    assert (Hx : x = 0) by nra. assert (Hz : z = 0) by nra. subst x z.
    unfold Math.atan2.
    destruct (total_order_T 0 0) as [[H | _] | H]; [lra | | lra].
    destruct (total_order_T 0 0) as [[H | _] | H]; [lra | | lra].
    rewrite cos_0, sin_0, <- Hzero.
    replace ((0 + 1 * o) * (0 + 1 * o) + (0 + 0 * o) * (0 + 0 * o))
      with (o * o) by ring.
    rewrite sqrt_square by lra. ring.
Qed.

(** An array read at [Math.floor(u * length)] for a draw [u] is inside
    the array. *)
Lemma pick_In (arr : list string) (u : R) :
  arr <> [] -> draw u -> In (OrnamentsSetup.pick arr u) arr.
Proof.
  intros Hne [H0 H1]. unfold OrnamentsSetup.pick, Math.floor.
  apply nth_In.
  assert (Hlen : 0 < INR (List.length arr)).
  { destruct arr; [contradiction | cbn [List.length]].
    rewrite S_INR. assert (H := pos_INR (List.length arr)). lra. }
  set (r := u * INR (List.length arr)).
  assert (Hr : 0 <= r < INR (List.length arr)) by (unfold r; nra).
  destruct (base_Int_part r) as [Hle Hgt].
  assert (Hz0 : (0 <= Int_part r)%Z).
  { assert (Hlt : (-1 < Int_part r)%Z) by (apply lt_IZR; lra). lia. }
  assert (Hz1 : (Int_part r < Z.of_nat (List.length arr))%Z).
  { apply lt_IZR. rewrite <- INR_IZR_INZ. lra. }
  lia.
Qed.

Lemma sphere_norm_le (radius u v w : R) :
  0 <= radius -> draw w ->
  norm3 (getRandomSpherePoint radius u v w) <= radius.
Proof.
  intros Hr [H0 H1].
  destruct (cbrt_unit w ltac:(lra)) as [Hc0 Hc1].
  unfold getRandomSpherePoint. cbv zeta.
  rewrite spherical_norm by (apply Rmult_le_pos; assumption).
  rewrite <- (Rmult_1_l radius) at 2.
  apply Rmult_le_compat_r; assumption.
Qed.

Lemma dense_point_bounds (height radiusBase yOffset a b c : R) :
  0 < height -> 0 <= radiusBase -> draw a -> draw b -> draw c ->
  let p := getDenseBottomTreePoint height radiusBase yOffset a b c in
  yOffset <= snd3 p < yOffset + height
  /\ 0 <= axisDist p < radiusBase + 0.5.
Proof.
  intros Hh Hr Ha Hb Hc p. unfold draw in Ha, Hb, Hc.
  destruct (pow_unit a 1.5 ltac:(lra) ltac:(lra)) as [Hp0 Hp1].
  assert (Hle : Math.pow a 1.5 <= a) by (apply pow_le_base; lra).
  destruct (cone_point_bounds height radiusBase (Math.pow a 1.5) (c * 0.5)
              Hh Hr ltac:(lra) ltac:(lra)) as [E Hb'].
  assert (Hy : snd3 p = Math.pow a 1.5 * height + yOffset) by reflexivity.
  assert (Hd : axisDist p
               = (height - Math.pow a 1.5 * height) / height * radiusBase
                 + c * 0.5).
  { unfold p, getDenseBottomTreePoint. cbv zeta. apply axisDist_polar. lra. }
  split; [rewrite Hy; nra | rewrite Hd; lra].
Qed.

(** One round of the generation loop, read off its body. *)
Lemma generateOne_spec (src : Random.Source) (n i : nat) :
  draws src ->
  let item := fst (OrnamentsSetup.generateOne i src n) in
  let n' := snd (OrnamentsSetup.generateOne i src n) in
  o_id item = i
  /\ o_type item = OrnamentsSetup.typeOf (src n)
  /\ (src n < 0.15 <-> o_type item = heavy)
  /\ (0.15 <= src n < 0.6 <-> o_type item = light)
  /\ (0.6 <= src n <-> o_type item = extra_light)
  /\ ornamentInRanges item
  /\ n' = (n + if Ornaments.OrnamentType_eqb (o_type item) extra_light
               then 13 else 12)%nat.
Proof.
  intros Hsrc item n'.
  assert (Hd : forall k, 0 <= src k < 1) by exact Hsrc.
  assert (Htree :
    let p := getDenseBottomTreePoint 15.5 7.0 (-7.5)
               (src (S n)) (src (S (S n))) (src (S (S (S n)))) in
    -7.5 <= snd3 p < 8 /\ 0 <= axisDist p < 7.5).
  { cbv zeta.
    destruct (dense_point_bounds 15.5 7.0 (-7.5) (src (S n)) (src (S (S n)))
                (src (S (S (S n)))) ltac:(lra) ltac:(lra)
                (Hsrc _) (Hsrc _) (Hsrc _)) as [Hy Ha].
    cbv zeta in Hy, Ha. lra. }
  cbv zeta in Htree. destruct Htree as [Hy Ha].
  assert (Hsph : forall u v w, draw w ->
                   norm3 (getRandomSpherePoint 25 u v w) <= 25)
    by (intros; apply sphere_norm_le; [lra | assumption]).
  assert (Hcol : forall u, draw u ->
                   In (OrnamentsSetup.pick OrnamentsSetup.colors u)
                      OrnamentsSetup.colors)
    by (intros; apply pick_In; [discriminate | assumption]).
  assert (Hlcol : forall u, draw u ->
                    In (OrnamentsSetup.pick OrnamentsSetup.lightColors u)
                       OrnamentsSetup.lightColors)
    by (intros; apply pick_In; [discriminate | assumption]).
  assert (Htype : (src n < 0.15 <-> OrnamentsSetup.typeOf (src n) = heavy)
            /\ (0.15 <= src n < 0.6
                <-> OrnamentsSetup.typeOf (src n) = light)
            /\ (0.6 <= src n
                <-> OrnamentsSetup.typeOf (src n) = extra_light)).
  { unfold OrnamentsSetup.typeOf, Rltb.
    destruct (Rlt_dec (src n) 0.15); [| destruct (Rlt_dec (src n) 0.60)];
      repeat split; intros; try discriminate; try lra; try reflexivity. }
  unfold item, n', OrnamentsSetup.generateOne.
  cbv [Random.bind Random.random Random.ret].
  destruct (OrnamentsSetup.typeOf (src n)) eqn:Et;
    cbn [fst snd o_id o_type Ornaments.OrnamentType_eqb];
    (split; [reflexivity |]); (split; [reflexivity |]);
    (split; [apply Htype |]); (split; [apply Htype |]);
    (split; [apply Htype |]); (split; [| lia]);
    unfold ornamentInRanges;
    cbn [o_dual o_type o_color speed scale treePosition scatterPosition];
    destruct (pushOut_axisDist
                (getDenseBottomTreePoint 15.5 7.0 (-7.5) (src (S n))
                   (src (S (S n))) (src (S (S (S n)))))
                ) with (type := OrnamentsSetup.typeOf (src n)) as [Hax Hh];
    rewrite Et in Hax, Hh; rewrite Hax, Hh;
    repeat match goal with
           | |- _ /\ _ => split
           | |- In _ _ => (apply Hcol || apply Hlcol); apply Hsrc
           | |- norm3 _ <= _ => apply Hsph; apply Hsrc
           end;
    cbn [OrnamentsSetup.offsetOf];
    try match goal with
        | |- context [src ?k] => assert (Hk := Hd k)
        end; lra.
Qed.

(** One round of the generation loop: the class follows the first draw
    (below 0.15 heavy, below 0.6 light, else extra-light), the id is the
    loop index, every field is in the range of its class, and 12 draws
    are made, 13 for an extra-light ornament. *)
Theorem generated_ornament_in_ranges (src : Random.Source) (n i : nat) :
  draws src ->
  let item := fst (OrnamentsSetup.generateOne i src n) in
  let n' := snd (OrnamentsSetup.generateOne i src n) in
  o_id item = i
  /\ o_type item = OrnamentsSetup.typeOf (src n)
  /\ (src n < 0.15 <-> o_type item = heavy)
  /\ (0.15 <= src n < 0.6 <-> o_type item = light)
  /\ (0.6 <= src n <-> o_type item = extra_light)
  /\ ornamentInRanges item
  /\ n' = (n + if Ornaments.OrnamentType_eqb (o_type item) extra_light
               then 13 else 12)%nat.
Proof. exact (generateOne_spec src n i). Qed.

Lemma constantSource_draws (u : R) : draw u -> draws (constantSource u).
Proof. intros H k. exact H. Qed.

Lemma generated_ornament_in_ranges_witness :
  draws (constantSource 0.5)
  /\ ornamentInRanges
       (fst (OrnamentsSetup.generateOne 7 (constantSource 0.5) 0%nat)).
Proof.
  assert (H : draws (constantSource 0.5))
    by (apply constantSource_draws; unfold draw; lra).
  split; [exact H |].
  exact (proj1 (proj2 (proj2 (proj2 (proj2 (proj2
           (generated_ornament_in_ranges (constantSource 0.5) 0 7 H))))))).
Defined.

(** ** The ornaments: the three lists *)

Lemma push_Permutation (data : OrnamentData) (l : OrnamentsSetup.Lists) :
  Permutation (data :: OrnamentsSetup.all l)
              (OrnamentsSetup.all (OrnamentsSetup.push data l)).
Proof.
  unfold OrnamentsSetup.all, OrnamentsSetup.push.
  set (b := OrnamentsSetup.baubles l). set (g := OrnamentsSetup.gifts l).
  set (li := OrnamentsSetup.lights l).
  destruct (o_type data); cbn [OrnamentsSetup.baubles OrnamentsSetup.gifts
    OrnamentsSetup.lights].
  - replace (b ++ (g ++ [data]) ++ li) with ((b ++ g) ++ data :: li)
      by (rewrite <- !app_assoc; reflexivity).
    rewrite (app_assoc b g li). apply Permutation_middle.
  - replace ((b ++ [data]) ++ g ++ li) with (b ++ data :: g ++ li)
      by (rewrite <- !app_assoc; reflexivity).
    apply Permutation_middle.
  - rewrite !app_assoc. apply Permutation_cons_append.
Qed.

(** What the generation loop keeps, after [i] rounds. *)
Lemma generateLoop_invariant (src : Random.Source) :
  draws src ->
  forall n i acc c,
    let Inv := fun (k : nat) (l : OrnamentsSetup.Lists) =>
      Forall (fun it => o_type it = light) (OrnamentsSetup.baubles l)
      /\ Forall (fun it => o_type it = heavy) (OrnamentsSetup.gifts l)
      /\ Forall (fun it => o_type it = extra_light) (OrnamentsSetup.lights l)
      /\ Forall (fun it => ornamentInRanges it /\ (o_id it < k)%nat)
                (OrnamentsSetup.all l)
      /\ NoDup (map o_id (OrnamentsSetup.all l))
      /\ List.length (OrnamentsSetup.all l) = k in
    Inv i acc ->
    Inv (i + n)%nat (fst (OrnamentsSetup.generateLoop n i acc src c)).
Proof.
  intros Hsrc n. induction n as [| n IH]; intros i acc c Inv HI.
  - cbn. replace (i + 0)%nat with i by lia. exact HI.
  - cbn [OrnamentsSetup.generateLoop]. unfold Random.bind.
    destruct (OrnamentsSetup.generateOne i src c) as [data c'] eqn:Eg.
    destruct (generateOne_spec src c i Hsrc)
      as (Hid & _ & _ & _ & _ & Hr & _).
    rewrite Eg in Hid, Hr. cbn [fst] in Hid, Hr.
    replace (i + S n)%nat with (S i + n)%nat by lia.
    apply IH. destruct HI as (Hb & Hg & Hl & Hall & Hnd & Hlen).
    assert (Hp := push_Permutation data acc).
    assert (Hlt : Forall (fun it => (o_id it < i)%nat)
                         (OrnamentsSetup.all acc)).
    { eapply Forall_impl; [| exact Hall]. cbn. intros a [_ Ha]. exact Ha. }
    repeat split.
    + unfold OrnamentsSetup.push. destruct (o_type data) eqn:Et; cbn;
        try assumption.
      apply Forall_app. split; [assumption | repeat constructor; assumption].
    + unfold OrnamentsSetup.push. destruct (o_type data) eqn:Et; cbn;
        try assumption.
      apply Forall_app. split; [assumption | repeat constructor; assumption].
    + unfold OrnamentsSetup.push. destruct (o_type data) eqn:Et; cbn;
        try assumption.
      apply Forall_app. split; [assumption | repeat constructor; assumption].
    + eapply Permutation_Forall; [exact Hp |].
      constructor; [split; [exact Hr | lia] |].
      eapply Forall_impl; [| exact Hall]. cbn. intros a [Ha1 Ha2].
      split; [exact Ha1 | lia].
    + eapply Permutation_NoDup; [apply Permutation_map; exact Hp |].
      cbn [map]. constructor; [| exact Hnd].
      intros Hin. apply in_map_iff in Hin. destruct Hin as (a & Ha & Hina).
      rewrite Forall_forall in Hlt. specialize (Hlt a Hina). lia.
    + rewrite <- (Permutation_length Hp). cbn [List.length]. lia.
Qed.

Lemma NoDup_keys (l : list OrnamentData) :
  NoDup (map o_id l) -> NoDup (map Ornaments.key l).
Proof.
  intros H. apply (NoDup_map_inv snd).
  rewrite map_map. exact H.
Qed.

(** The generation fills the three lists with [COUNT] ornaments in all:
    the lights list holds the extra-light ones, the gifts list the heavy
    ones and the baubles list the light ones; every ornament is in the
    ranges of its class with an id below [COUNT]; no two ornaments share
    an id, nor a key of the position store. *)
Theorem generated_lists (src : Random.Source) :
  draws src ->
  let l := fst (OrnamentsSetup.generate src 0%nat) in
  (List.length (OrnamentsSetup.baubles l)
   + List.length (OrnamentsSetup.gifts l)
   + List.length (OrnamentsSetup.lights l))%nat = OrnamentsSetup.COUNT
  /\ Forall (fun it => o_type it = light) (OrnamentsSetup.baubles l)
  /\ Forall (fun it => o_type it = heavy) (OrnamentsSetup.gifts l)
  /\ Forall (fun it => o_type it = extra_light) (OrnamentsSetup.lights l)
  /\ Forall (fun it => ornamentInRanges it
                       /\ (o_id it < OrnamentsSetup.COUNT)%nat)
            (OrnamentsSetup.all l)
  /\ NoDup (map o_id (OrnamentsSetup.all l))
  /\ NoDup (map Ornaments.key (OrnamentsSetup.all l)).
Proof.
  intros Hsrc l.
  destruct (generateLoop_invariant src Hsrc OrnamentsSetup.COUNT 0%nat
              (OrnamentsSetup.mkLists [] [] []) 0%nat)
    as (Hb & Hg & Hl & Hall & Hnd & Hlen).
  { cbn. repeat split; constructor. }
  change (fst (OrnamentsSetup.generateLoop OrnamentsSetup.COUNT 0
                 (OrnamentsSetup.mkLists [] [] []) src 0%nat))
    with l in Hb, Hg, Hl, Hall, Hnd, Hlen.
  cbn [Nat.add] in Hall, Hlen.
  split.
  { unfold OrnamentsSetup.all in Hlen. rewrite !length_app in Hlen. lia. }
  repeat (split; [assumption |]).
  apply NoDup_keys. exact Hnd.
Qed.

Lemma generated_lists_witness :
  draws (constantSource 0.5)
  /\ NoDup (map Ornaments.key
              (OrnamentsSetup.all
                 (fst (OrnamentsSetup.generate (constantSource 0.5) 0%nat)))).
Proof.
  assert (H : draws (constantSource 0.5))
    by (apply constantSource_draws; unfold draw; lra).
  split; [exact H |].
  exact (proj2 (proj2 (proj2 (proj2 (proj2 (proj2
           (generated_lists (constantSource 0.5) H))))))).
Defined.

(** ** The ornaments: the position store *)

Lemma Key_eqb_eq (a b : Ornaments.Key) :
  Ornaments.Key_eqb a b = true <-> a = b.
Proof.
  destruct a as [ta ia], b as [tb ib]. unfold Ornaments.Key_eqb. cbn [fst snd].
  rewrite andb_true_iff, Nat.eqb_eq. split.
  - intros [Ht ->]. destruct ta, tb; (discriminate || reflexivity).
  - intros H. injection H as -> ->. split; [destruct tb |]; reflexivity.
Qed.

Lemma store_set_same (s : Ornaments.Store) (k : Ornaments.Key)
      (v : Vector3) :
  Ornaments.store_set s k v k = Some v.
Proof.
  unfold Ornaments.store_set.
  rewrite (proj2 (Key_eqb_eq k k) eq_refl). reflexivity.
Qed.

Lemma store_set_other (s : Ornaments.Store) (k k' : Ornaments.Key)
      (v : Vector3) :
  k <> k' -> Ornaments.store_set s k v k' = s k'.
Proof.
  intros Hne. unfold Ornaments.store_set.
  destruct (Ornaments.Key_eqb k k') eqn:E; [| reflexivity].
  apply Key_eqb_eq in E. contradiction.
Qed.

(** One item of [updateMesh]'s loop. *)
Lemma updateMesh_cons (m delta : R) (item : OrnamentData)
      (rest : list OrnamentData) (s : Ornaments.Store) :
  Ornaments.updateMesh true m delta (item :: rest) s
  = Ornaments.updateMesh true m delta rest
      (match s (Ornaments.key item) with
       | Some currentPos =>
           Ornaments.store_set s (Ornaments.key item)
             (Ornaments.updatePos item m delta currentPos)
       | None => s
       end).
Proof. reflexivity. Qed.

Lemma updateMesh_outside (m delta : R) (data : list OrnamentData) :
  forall (s : Ornaments.Store) (k : Ornaments.Key),
    ~ In k (map Ornaments.key data) ->
    Ornaments.updateMesh true m delta data s k = s k.
Proof.
  induction data as [| item rest IH]; intros s k Hk; [reflexivity |].
  rewrite updateMesh_cons, IH by (intros H; apply Hk; right; exact H).
  destruct (s (Ornaments.key item)); [| reflexivity].
  apply store_set_other. intros E. apply Hk. left. exact E.
Qed.

Lemma updateMesh_None (m delta : R) (data : list OrnamentData) :
  forall (s : Ornaments.Store) (k : Ornaments.Key),
    Ornaments.updateMesh true m delta data s k = None <-> s k = None.
Proof.
  induction data as [| item rest IH]; intros s k; [reflexivity |].
  rewrite updateMesh_cons, IH.
  destruct (s (Ornaments.key item)) as [p |] eqn:E; [| reflexivity].
  unfold Ornaments.store_set.
  destruct (Ornaments.Key_eqb (Ornaments.key item) k) eqn:Ek; [| reflexivity].
  apply Key_eqb_eq in Ek. subst k. rewrite E. split; discriminate.
Qed.

Lemma updateMesh_inside (m delta : R) (data : list OrnamentData) :
  NoDup (map Ornaments.key data) ->
  forall (s : Ornaments.Store) (item : OrnamentData),
    In item data ->
    Ornaments.updateMesh true m delta data s (Ornaments.key item)
    = option_map (Ornaments.updatePos item m delta) (s (Ornaments.key item)).
Proof.
  induction data as [| a rest IH]; intros Hnd s item Hin; [contradiction |].
  cbn [map] in Hnd. inversion Hnd as [| ? ? Hnotin Hnd']; subst.
  rewrite updateMesh_cons. destruct Hin as [<- | Hin].
  - rewrite updateMesh_outside by exact Hnotin.
    destruct (s (Ornaments.key a)) as [p |] eqn:E; cbn [option_map].
    + apply store_set_same.
    + exact E.
  - rewrite IH by assumption. f_equal.
    assert (Hne : Ornaments.key a <> Ornaments.key item).
    { intros E. apply Hnotin. rewrite E. apply in_map. exact Hin. }
    destruct (s (Ornaments.key a)); [| reflexivity].
    apply store_set_other. exact Hne.
Qed.

(** [updateMesh] on the position store: without a mesh it changes
    nothing; it never touches the position of a key that is not in its
    data, never creates and never removes a position; and when the keys
    of its data are distinct, it replaces each stored position by the
    updated position of its item, exactly once. *)
Theorem updateMesh_store
        (meshPresent : bool) (m delta : R) (data : list OrnamentData)
        (s : Ornaments.Store) :
  let s' := Ornaments.updateMesh meshPresent m delta data s in
  (meshPresent = false -> forall k, s' k = s k)
  /\ (forall k, ~ In k (map Ornaments.key data) -> s' k = s k)
  /\ (forall k, s' k = None <-> s k = None)
  /\ (meshPresent = true -> NoDup (map Ornaments.key data) ->
      forall item, In item data ->
        s' (Ornaments.key item)
        = option_map (Ornaments.updatePos item m delta)
                     (s (Ornaments.key item))).
Proof.
  intros s'. unfold s'. destruct meshPresent.
  - split; [discriminate |].
    split; [apply updateMesh_outside |].
    split; [apply updateMesh_None |].
    intros _ Hnd item Hin. apply updateMesh_inside; assumption.
  - repeat split; intros; try reflexivity; try assumption; discriminate.
Qed.

Lemma updateMesh_store_witness :
  NoDup (map Ornaments.key [sampleOrnament])
  /\ Ornaments.updateMesh true 1 0.016 [sampleOrnament]
       (Ornaments.store_set OrnamentsSetup.emptyStore
          (Ornaments.key sampleOrnament) (mkVector3 0 0 0))
       (Ornaments.key sampleOrnament)
     = Some (Ornaments.updatePos sampleOrnament 1 0.016 (mkVector3 0 0 0)).
Proof.
  assert (H : NoDup (map Ornaments.key [sampleOrnament]))
    by (repeat constructor; intros []).
  split; [exact H |].
  exact (proj2 (proj2 (proj2
           (updateMesh_store true 1 0.016 [sampleOrnament]
              (Ornaments.store_set OrnamentsSetup.emptyStore
                 (Ornaments.key sampleOrnament) (mkVector3 0 0 0)))))
           eq_refl H sampleOrnament (or_introl eq_refl)).
Defined.

Lemma NoDup_app_disjoint {A : Type} (l1 l2 : list A) :
  NoDup (l1 ++ l2) -> forall x, In x l1 -> ~ In x l2.
Proof.
  induction l1 as [| a l1 IH]; intros Hnd x Hin; [contradiction |].
  cbn [app] in Hnd. inversion Hnd as [| ? ? Ha Hrest]; subst.
  destruct Hin as [<- | Hin].
  - intros H2. apply Ha. apply in_or_app. right. exact H2.
  - apply IH; assumption.
Qed.

Lemma initPositions_lookup (items : list OrnamentData) :
  NoDup (map Ornaments.key items) ->
  forall (s : Ornaments.Store),
    let s' :=
      fold_left
        (fun st item =>
           Ornaments.store_set st (Ornaments.key item)
             (THREE.ofArray (scatterPosition (o_dual item)))) items s in
    (forall item, In item items ->
       s' (Ornaments.key item)
       = Some (THREE.ofArray (scatterPosition (o_dual item))))
    /\ (forall k, ~ In k (map Ornaments.key items) -> s' k = s k).
Proof.
  induction items as [| a rest IH]; intros Hnd s; cbn [fold_left].
  - split; [intros item [] | reflexivity].
  - cbn [map] in Hnd. inversion Hnd as [| ? ? Hnotin Hnd']; subst.
    destruct (IH Hnd' (Ornaments.store_set s (Ornaments.key a)
                (THREE.ofArray (scatterPosition (o_dual a))))) as [Hin Hout].
    split.
    + intros item [<- | Hi].
      * rewrite Hout by exact Hnotin. apply store_set_same.
      * apply Hin. exact Hi.
    + intros k Hk. rewrite Hout by (intros H; apply Hk; right; exact H).
      apply store_set_other. intros E. apply Hk. left. exact E.
Qed.

(** With distinct keys, the initial effect stores the scatter position
    of every ornament and nothing else, and the first frame, with the
    three meshes mounted, moves every ornament once from its scatter
    position: no ornament is skipped for want of a stored position. *)
Theorem ornaments_first_frame
        (l : OrnamentsSetup.Lists) (m delta : R) (item : OrnamentData) :
  NoDup (map Ornaments.key (OrnamentsSetup.all l)) ->
  In item (OrnamentsSetup.all l) ->
  let s0 := OrnamentsSetup.initPositions l OrnamentsSetup.emptyStore in
  let s1 := OrnamentsSetup.frame true true true m delta l s0 in
  let scatter := THREE.ofArray (scatterPosition (o_dual item)) in
  s0 (Ornaments.key item) = Some scatter
  /\ s1 (Ornaments.key item)
     = Some (Ornaments.updatePos item m delta scatter)
  /\ (forall k, ~ In k (map Ornaments.key (OrnamentsSetup.all l)) ->
      s0 k = None /\ s1 k = None).
Proof.
  intros Hnd Hin s0 s1 scatter.
  destruct (initPositions_lookup (OrnamentsSetup.all l) Hnd
              OrnamentsSetup.emptyStore) as [Hinit Hout].
  cbv zeta in Hinit, Hout.
  fold (OrnamentsSetup.initPositions l OrnamentsSetup.emptyStore)
    in Hinit, Hout.
  fold s0 in Hinit, Hout.
  assert (H0 : s0 (Ornaments.key item) = Some scatter)
    by (apply Hinit; exact Hin).
  unfold OrnamentsSetup.all in Hnd, Hin. rewrite !map_app in Hnd.
  set (b := OrnamentsSetup.baubles l) in *.
  set (g := OrnamentsSetup.gifts l) in *.
  set (li := OrnamentsSetup.lights l) in *.
  assert (Hb : NoDup (map Ornaments.key b))
    by (eapply NoDup_app_remove_r; exact Hnd).
  assert (Hgl : NoDup (map Ornaments.key g ++ map Ornaments.key li))
    by (eapply NoDup_app_remove_l; exact Hnd).
  assert (Hg : NoDup (map Ornaments.key g))
    by (eapply NoDup_app_remove_r; exact Hgl).
  assert (Hl : NoDup (map Ornaments.key li))
    by (eapply NoDup_app_remove_l; exact Hgl).
  assert (Hdisj1 := NoDup_app_disjoint _ _ Hnd).
  assert (Hdisj2 := NoDup_app_disjoint _ _ Hgl).
  split; [exact H0 |]. split.
  - unfold s1, OrnamentsSetup.frame. cbv zeta. fold b g li.
    apply in_app_or in Hin. destruct Hin as [Hi | Hin].
    + assert (Hk := Hdisj1 _ (in_map Ornaments.key _ _ Hi)).
      rewrite updateMesh_outside
        by (intros H; apply Hk; apply in_or_app; right; exact H).
      rewrite updateMesh_outside
        by (intros H; apply Hk; apply in_or_app; left; exact H).
      rewrite updateMesh_inside, H0 by assumption. reflexivity.
    + apply in_app_or in Hin. destruct Hin as [Hi | Hi].
      * assert (Hk := Hdisj2 _ (in_map Ornaments.key _ _ Hi)).
        rewrite updateMesh_outside by exact Hk.
        rewrite updateMesh_inside by assumption.
        rewrite updateMesh_outside, H0; [reflexivity |].
        intros H. apply (Hdisj1 _ H). apply in_or_app. left.
        apply in_map. exact Hi.
      * rewrite updateMesh_inside by assumption.
        rewrite updateMesh_outside.
        -- rewrite updateMesh_outside, H0; [reflexivity |].
           intros H. apply (Hdisj1 _ H). apply in_or_app. right.
           apply in_map. exact Hi.
        -- intros H. apply (Hdisj2 _ H). apply in_map. exact Hi.
  - intros k Hk.
    assert (Hk0 : s0 k = None).
    { rewrite Hout; [reflexivity | exact Hk]. }
    split; [exact Hk0 |].
    unfold s1, OrnamentsSetup.frame. cbv zeta.
    rewrite !updateMesh_None. exact Hk0.
Qed.

Lemma ornaments_first_frame_witness :
  let l := OrnamentsSetup.mkLists [sampleOrnament] [] [] in
  NoDup (map Ornaments.key (OrnamentsSetup.all l))
  /\ In sampleOrnament (OrnamentsSetup.all l)
  /\ OrnamentsSetup.frame true true true 1 0.016 l
       (OrnamentsSetup.initPositions l OrnamentsSetup.emptyStore)
       (Ornaments.key sampleOrnament)
     = Some (Ornaments.updatePos sampleOrnament 1 0.016
               (THREE.ofArray (scatterPosition (o_dual sampleOrnament)))).
Proof.
  cbv zeta.
  assert (H1 : NoDup (map Ornaments.key
                        (OrnamentsSetup.all
                           (OrnamentsSetup.mkLists [sampleOrnament] [] []))))
    by (repeat constructor; intros []).
  assert (H2 : In sampleOrnament
                  (OrnamentsSetup.all
                     (OrnamentsSetup.mkLists [sampleOrnament] [] [])))
    by (left; reflexivity).
  split; [exact H1 | split; [exact H2 |]].
  exact (proj1 (proj2 (ornaments_first_frame
                         (OrnamentsSetup.mkLists [sampleOrnament] [] [])
                         1 0.016 sampleOrnament H1 H2))).
Defined.

(** ** The ornaments: speed classes and the floating noise *)

(** For ornaments in the generated ranges: the coefficient of the
    position update is below [9 * delta], so that with a frame time of
    at most a ninth of a second no ornament passes its target; and for a
    positive frame time a heavy ornament always has a smaller
    coefficient than a light one, and a light one a smaller coefficient
    than an extra-light one. *)
Theorem generated_ornaments_lag
        (a b : OrnamentData) (m delta : R) (cur : Vector3) :
  ornamentInRanges a -> ornamentInRanges b ->
  0 <= delta ->
  Ornaments.lerpSpeed a delta <= 9 * delta
  /\ (delta <= 1 / 9 ->
      between3 cur (Ornaments.itemTarget a m)
               (Ornaments.updatePos a m delta cur))
  /\ (0 < delta -> o_type a = heavy -> o_type b = light ->
      Ornaments.lerpSpeed a delta < Ornaments.lerpSpeed b delta)
  /\ (0 < delta -> o_type a = light -> o_type b = extra_light ->
      Ornaments.lerpSpeed a delta < Ornaments.lerpSpeed b delta).
Proof.
  intros [Ha _] [Hb _] Hd. unfold Ornaments.lerpSpeed. cbv zeta.
  assert (Hsa : 0.8 <= speed (o_dual a) < 6)
    by (destruct (o_type a); lra).
  assert (Hk : 0 <= delta * 1.5 * speed (o_dual a) <= 9 * delta) by nra.
  split; [lra |]. split.
  - intros Hd9. rewrite ornament_updatePos_approach.
    unfold Ornaments.lerpSpeed. cbv zeta.
    repeat split; apply approach_between; lra.
  - split; intros Hpos Ea Eb; rewrite Ea in Ha; rewrite Eb in Hb; nra.
Qed.

Lemma samples_in_ranges :
  ornamentInRanges sampleGift /\ ornamentInRanges sampleBauble.
Proof.
  unfold ornamentInRanges, sampleGift, sampleBauble, axisDist, norm3,
    fst3, snd3, thd3.
  cbn [o_dual o_type o_color speed scale treePosition scatterPosition
       fst snd OrnamentsSetup.offsetOf].
  replace (1 * 1 + 0 * 0) with (1 * 1) by ring.
  replace (0 * 0 + 0 * 0 + 0 * 0) with (0 * 0) by ring.
  rewrite !sqrt_square by lra.
  repeat split; try lra; left; reflexivity.
Qed.

Lemma generated_ornaments_lag_witness :
  ornamentInRanges sampleGift /\ ornamentInRanges sampleBauble
  /\ 0 <= 0.016
  /\ Ornaments.lerpSpeed sampleGift 0.016 <= 9 * 0.016.
Proof.
  destruct samples_in_ranges as [H1 H2].
  assert (H3 : 0 <= 0.016) by lra.
  repeat (split; [assumption |]).
  exact (proj1 (generated_ornaments_lag sampleGift sampleBauble 1 0.016
                  (mkVector3 0 0 0) H1 H2 H3)).
Defined.

(** The position drawn for an ornament differs from its stored position
    only in height, by the floating noise: at most 0.01 for a heavy
    ornament, 0.02 for a light one and 0.05 for an extra-light one. *)
Theorem ornament_noise_bound
        (item : OrnamentData) (time : R) (currentPos : Vector3) :
  let p := Ornaments.instancePosition item time currentPos in
  vx p = vx currentPos
  /\ vz p = vz currentPos
  /\ Rabs (vy p - vy currentPos)
     <= match o_type item with
        | heavy => 0.01
        | light => 0.02
        | extra_light => 0.05
        end.
Proof.
  intros p. split; [reflexivity | split; [reflexivity |]].
  unfold p, Ornaments.instancePosition. cbv zeta. cbn [vy].
  set (a := time + INR (o_id item) * 0.5).
  assert (Hs := SIN_bound a).
  match goal with
  | |- Rabs (_ + ?n - _) <= _ =>
      replace (vy currentPos + n - vy currentPos) with n by ring
  end.
  apply Rabs_le. destruct (o_type item); lra.
Qed.

(** ** The photos: the gallery *)

(** The angle of photo [index] of [total] in the gallery. *)
Lemma gallery_angle (index total : nat) :
  (index < total)%nat ->
  let angle := - PI / 2 + PI / (INR total + 1) * (INR index + 1) in
  - (PI / 2) < angle < PI / 2
  /\ Photos.galleryTarget index total
     = mkVector3 (sin angle * 6 * 1.5) (6 + cos (angle * 2) * 1.0)
                 (22 + cos angle * 2).
Proof.
  intros Hlt angle. split; [| reflexivity].
  assert (Hpi := PI_RGT_0).
  assert (Hi : 0 <= INR index) by apply pos_INR.
  assert (Hit : INR index + 1 <= INR total).
  { rewrite <- S_INR. apply le_INR. lia. }
  assert (Hinv : 0 < / (INR total + 1)) by (apply Rinv_0_lt_compat; lra).
  set (f := (INR index + 1) / (INR total + 1)).
  assert (Hf : 0 < f < 1).
  { unfold f, Rdiv. split; [nra |].
    assert (H1 : (INR total + 1) * / (INR total + 1) = 1) by (field; lra).
    nra. }
  assert (Ea : angle = - PI / 2 + PI * f) by (unfold angle, f; field; lra).
  rewrite Ea. split; nra.
Qed.

(** In the gallery the photos stand from left to right in the order of
    their indices, strictly between -9 and 9, at a height between 5 and
    7 and a depth above 22 and at most 24. *)
Theorem gallery_layout (i j total : nat) :
  (i < j)%nat -> (j < total)%nat ->
  let p := Photos.galleryTarget i total in
  let q := Photos.galleryTarget j total in
  -9 < vx p /\ vx p < vx q /\ vx q < 9
  /\ 5 <= vy p <= 7
  /\ 22 < vz p <= 24.
Proof.
  intros Hij Hjt p q.
  destruct (gallery_angle i total ltac:(lia)) as [Hi Ep].
  destruct (gallery_angle j total Hjt) as [Hj Eq].
  cbv zeta in Hi, Ep, Hj, Eq. unfold p, q. rewrite Ep, Eq. cbn [vx vy vz].
  set (a := - PI / 2 + PI / (INR total + 1) * (INR i + 1)) in *.
  set (b := - PI / 2 + PI / (INR total + 1) * (INR j + 1)) in *.
  assert (Hab : a < b).
  { unfold a, b. assert (Hpi := PI_RGT_0).
    assert (Hinv : 0 < / (INR total + 1)).
    { apply Rinv_0_lt_compat. assert (H := pos_INR total). lra. }
    assert (Hlt : INR i < INR j) by (apply lt_INR; exact Hij).
    assert (Hc : 0 < PI / (INR total + 1))
      by (apply Rmult_lt_0_compat; assumption).
    apply Rplus_lt_compat_l. apply Rmult_lt_compat_l; lra. }
  assert (Hs : sin a < sin b) by (apply sin_increasing_1; lra).
  assert (Hsa : sin (- (PI / 2)) < sin a)
    by (apply sin_increasing_1; lra).
  rewrite sin_neg, sin_PI2 in Hsa.
  assert (Hsb : sin b < sin (PI / 2))
    by (apply sin_increasing_1; lra).
  rewrite sin_PI2 in Hsb.
  assert (Hc := COS_bound (a * 2)).
  assert (Hca : 0 < cos a) by (apply cos_gt_0; lra).
  assert (Hca1 := COS_bound a).
  repeat split; lra.
Qed.

Lemma gallery_layout_witness :
  (0 < 2)%nat /\ (2 < 3)%nat
  /\ vx (Photos.galleryTarget 0 3) < vx (Photos.galleryTarget 2 3).
Proof.
  assert (H1 : (0 < 2)%nat) by lia.
  assert (H2 : (2 < 3)%nat) by lia.
  split; [exact H1 | split; [exact H2 |]].
  exact (proj1 (proj2 (gallery_layout 0 2 3 H1 H2))).
Defined.

(** The gallery is symmetric: the photo counted from the right end
    stands at the mirror image of the photo counted from the left end,
    and a photo in the middle stands on the axis. *)
Theorem gallery_is_symmetric (i total : nat) :
  (i < total)%nat ->
  let p := Photos.galleryTarget i total in
  let q := Photos.galleryTarget (total - 1 - i) total in
  vx q = - vx p /\ vy q = vy p /\ vz q = vz p
  /\ (total = (2 * i + 1)%nat -> vx p = 0).
Proof.
  intros Hlt p q.
  assert (Ht : 0 <= INR total) by apply pos_INR.
  assert (Hsub : INR (total - 1 - i) = INR total - 1 - INR i).
  { rewrite !minus_INR by lia. cbn. lra. }
  set (a := - PI / 2 + PI / (INR total + 1) * (INR i + 1)).
  assert (Eq : - PI / 2 + PI / (INR total + 1) * (INR (total - 1 - i) + 1)
               = - a).
  { rewrite Hsub. unfold a. field. lra. }
  unfold q, p, Photos.galleryTarget. cbv zeta. cbn [vx vy vz].
  rewrite Eq. fold a.
  replace (- a * 2) with (- (a * 2)) by ring.
  rewrite sin_neg, !cos_neg.
  repeat split; try ring.
  intros E.
  assert (Ea : a = 0).
  { assert (HT : INR total = 2 * INR i + 1)
      by (rewrite E, plus_INR, mult_INR; cbn; lra).
    unfold a. rewrite HT. field.
    assert (H := pos_INR i). lra. }
  rewrite Ea, sin_0. ring.
Qed.

Lemma gallery_is_symmetric_witness :
  (0 < 3)%nat
  /\ vx (Photos.galleryTarget (3 - 1 - 0) 3) = - vx (Photos.galleryTarget 0 3).
Proof.
  assert (H : (0 < 3)%nat) by lia.
  split; [exact H |].
  exact (proj1 (gallery_is_symmetric 0 3 H)).
Defined.

(** ** The photos: generation, lag and sway *)

Lemma axisDist_scaled (p : R * R * R) (k : R) :
  0 <= k ->
  axisDist (fst3 p * k, snd3 p, thd3 p * k) = k * axisDist p.
Proof.
  intros Hk. unfold axisDist, fst3, thd3. cbn [fst snd].
  replace (fst (fst p) * k * (fst (fst p) * k) + snd p * k * (snd p * k))
    with (k * k * (fst (fst p) * fst (fst p) + snd p * snd p)) by ring.
  assert (H1 := Rle_0_sqr (fst (fst p))). assert (H2 := Rle_0_sqr (snd p)).
  unfold Rsqr in H1, H2.
  rewrite sqrt_mult by nra. rewrite sqrt_square by exact Hk. reflexivity.
Qed.

Lemma idOf_inj (i j : nat) : PhotosSetup.idOf i = PhotosSetup.idOf j -> i = j.
Proof.
  unfold PhotosSetup.idOf. cbn [String.append]. intros H.
  injection H as H.
  apply Unsigned.to_uint_inj.
  assert (Hi := NilEmpty.usu (Nat.to_uint i)).
  assert (Hj := NilEmpty.usu (Nat.to_uint j)).
  rewrite H in Hi. rewrite Hi in Hj. injection Hj as Hj. exact Hj.
Qed.

(** Every generated id begins with the letter p, whose code is 112. *)
Lemma idOf_charCode (i : nat) :
  PhotosSetup.charCodeAt0 (PhotosSetup.idOf i) = Some 112.
Proof.
  unfold PhotosSetup.idOf. cbn [String.append PhotosSetup.charCodeAt0].
  f_equal. rewrite INR_IZR_INZ. reflexivity.
Qed.

Lemma generated_photo (src : Random.Source) (url : string) (index n : nat) :
  draws src ->
  let data := fst (PhotosSetup.generateOne url index src n) in
  p_url data = url /\ p_id data = PhotosSetup.idOf index
  /\ photoInRanges data
  /\ snd (PhotosSetup.generateOne url index src n) = (n + 10)%nat.
Proof.
  intros Hsrc data.
  unfold data, PhotosSetup.generateOne.
  cbv [Random.bind Random.random Random.ret]. cbn [fst snd p_url p_id].
  split; [reflexivity |]. split; [reflexivity |]. split; [| lia].
  unfold photoInRanges.
  cbn [p_dual speed scale treePosition scatterPosition].
  destruct (dense_point_bounds 14 7.5 (-7) (src n) (src (S n))
              (src (S (S n))) ltac:(lra) ltac:(lra)
              (Hsrc _) (Hsrc _) (Hsrc _)) as [Hy Ha].
  cbv zeta in Hy, Ha.
  rewrite axisDist_scaled by lra.
  assert (Hs := Hsrc (S (S (S (S (S (S (S (S (S n)))))))))).
  unfold draw in Hs.
  assert (Hsp := sphere_norm_le 30 (src (S (S (S n))))
                   (src (S (S (S (S n))))) (src (S (S (S (S (S n))))))
                   ltac:(lra) (Hsrc _)).
  change (snd3 (fst3 ?p * 1.2, snd3 ?p, thd3 ?p * 1.2)) with (snd3 p).
  repeat split; try lra; try exact Hsp.
Qed.

(** The photo data follow the uploaded list: one entry per url, in
    order, with the ids [photo-0], [photo-1], ... which are distinct and
    all begin with the letter p; every entry is in the generated
    ranges; ten draws are made per photo. *)
Theorem generated_photos (src : Random.Source) (photos : list string)
        (n : nat) :
  draws src ->
  let datas := fst (PhotosSetup.photoData photos src n) in
  map p_url datas = photos
  /\ map p_id datas = map PhotosSetup.idOf (seq 0 (List.length photos))
  /\ NoDup (map p_id datas)
  /\ Forall photoInRanges datas
  /\ Forall (fun d => PhotosSetup.charCodeAt0 (p_id d) = Some 112) datas
  /\ snd (PhotosSetup.photoData photos src n)
     = (n + 10 * List.length photos)%nat.
Proof.
  intros Hsrc datas.
  assert (Hgen : forall l index c,
    let ds := fst (PhotosSetup.generateFrom index l src c) in
    map p_url ds = l
    /\ map p_id ds = map PhotosSetup.idOf (seq index (List.length l))
    /\ Forall photoInRanges ds
    /\ snd (PhotosSetup.generateFrom index l src c)
       = (c + 10 * List.length l)%nat).
  { induction l as [| url rest IH]; intros index c.
    - cbn. repeat split; try constructor; lia.
    - cbn [PhotosSetup.generateFrom]. unfold Random.bind, Random.ret.
      destruct (generated_photo src url index c Hsrc) as (Hu & Hi & Hr & Hc).
      destruct (PhotosSetup.generateOne url index src c) as [data c'].
      cbn [fst snd] in Hu, Hi, Hr, Hc. subst c'.
      specialize (IH (S index) (c + 10)%nat).
      destruct (PhotosSetup.generateFrom (S index) rest src (c + 10)%nat)
        as [ds c''].
      cbn [fst snd] in IH |- *. destruct IH as (IHu & IHi & IHr & IHc).
      cbn [map List.length seq]. rewrite Hu, Hi, IHu, IHi.
      repeat split; try reflexivity; [constructor; assumption | lia]. }
  destruct (Hgen photos 0%nat n) as (Hu & Hi & Hr & Hc).
  fold (PhotosSetup.photoData photos src n) in Hu, Hi, Hr, Hc.
  fold datas in Hu, Hi, Hr.
  split; [exact Hu |]. split; [exact Hi |].
  split.
  { rewrite Hi. apply Finite.Injective_map_NoDup; [| apply seq_NoDup].
    intros i j. apply idOf_inj. }
  split; [exact Hr |]. split; [| exact Hc].
  apply Forall_forall. intros d Hd.
  assert (Hin : In (p_id d) (map p_id datas)) by (apply in_map; exact Hd).
  rewrite Hi in Hin. apply in_map_iff in Hin. destruct Hin as (i & <- & _).
  apply idOf_charCode.
Qed.

Lemma generated_photos_witness :
  draws (constantSource 0.5)
  /\ map p_url
       (fst (PhotosSetup.photoData ["blob:a"; "blob:b"]%string
               (constantSource 0.5) 0%nat))
     = ["blob:a"; "blob:b"]%string.
Proof.
  assert (H : draws (constantSource 0.5))
    by (apply constantSource_draws; unfold draw; lra).
  split; [exact H |].
  exact (proj1 (generated_photos (constantSource 0.5)
                  ["blob:a"; "blob:b"]%string 0%nat H)).
Defined.

(** For a photo of generated speed: the coefficient of its update is
    between 1.6 and 2.4 times the frame time, and 5 times the frame time
    while magnified, which is always the faster; with a frame time of at
    most a fifth of a second, position and scale move towards their
    targets without passing them, whether magnified or not. *)
Theorem photo_lag (data : PhotoData) (m delta : R) (mag : bool)
        (index total : nat) (st : Photos.ItemState) :
  0.8 <= speed (p_dual data) < 1.2 ->
  0 <= delta ->
  let st' := Photos.frame true data m mag index total delta st in
  let target := Photos.itemTarget data m mag index total in
  1.6 * delta <= Photos.moveSpeed data false delta <= 2.4 * delta
  /\ Photos.moveSpeed data true delta = 5 * delta
  /\ (0 < delta ->
      Photos.moveSpeed data false delta < Photos.moveSpeed data true delta)
  /\ snd target = (if mag then 2.5 else scale (p_dual data))
  /\ (delta <= 0.2 ->
      between3 (Photos.currentPos st) (fst target) (Photos.currentPos st')
      /\ between (Photos.currentScale st) (snd target)
                 (Photos.currentScale st')).
Proof.
  intros Hs Hd st' target.
  assert (Hn : 1.6 * delta <= Photos.moveSpeed data false delta
               <= 2.4 * delta) by (unfold Photos.moveSpeed; nra).
  assert (Hm : Photos.moveSpeed data true delta = 5 * delta)
    by (unfold Photos.moveSpeed; lra).
  split; [exact Hn |]. split; [exact Hm |].
  split; [intros; lra |].
  split; [unfold target, Photos.itemTarget; destruct mag; reflexivity |].
  intros Hd2.
  assert (Hk : 0 <= Photos.moveSpeed data mag delta <= 1)
    by (destruct mag; lra).
  split.
  - unfold st'. rewrite photo_frame_approach. fold target.
    repeat split; apply approach_between; exact Hk.
  - unfold st', Photos.frame. fold target. destruct target as [t ts].
    cbn [Photos.currentScale snd]. rewrite lerp_approach.
    apply approach_between. exact Hk.
Qed.

Lemma photo_lag_witness :
  0.8 <= speed (p_dual samplePhoto) < 1.2 /\ 0 <= 0.016
  /\ Photos.moveSpeed samplePhoto true 0.016 = 5 * 0.016.
Proof.
  assert (H1 : 0.8 <= speed (p_dual samplePhoto) < 1.2) by (cbn; lra).
  assert (H2 : 0 <= 0.016) by lra.
  split; [exact H1 | split; [exact H2 |]].
  exact (proj1 (proj2 (photo_lag samplePhoto 1 0.016 false 0 1
                         (Photos.initialItemState samplePhoto) H1 H2))).
Defined.

(** The rotation of a polaroid with a generated id: it is defined; at
    morph factor 1 the photo faces forward, with a sway of at most 0.01
    about the x and z axes; at morph factor 0 it tumbles, every angle
    growing by 0.2 per second from its stored rotation; and the sway of
    every photo has the same phase, the code 112 of the letter p. *)
Theorem photo_sway (data : PhotoData) (index : nat) (time : R) :
  p_id data = PhotosSetup.idOf index ->
  let rot := rotation (p_dual data) in
  PhotosSetup.charCodeAt0 (p_id data) = Some 112
  /\ (exists rx rz,
        PhotosSetup.swayRotation data 1 time = Some (rx, 0, rz)
        /\ rx = sin (time * 1.5 + 112) * 0.01
        /\ rz = cos (time * 1.2 + 112) * 0.01
        /\ Rabs rx <= 0.01 /\ Rabs rz <= 0.01)
  /\ PhotosSetup.swayRotation data 0 time
     = Some (fst3 rot + time * 0.2, snd3 rot + time * 0.2,
             thd3 rot + time * 0.2).
Proof.
  intros Hid rot.
  assert (Hc : PhotosSetup.charCodeAt0 (p_id data) = Some 112)
    by (rewrite Hid; apply idOf_charCode).
  split; [exact Hc |].
  unfold PhotosSetup.swayRotation. rewrite Hc. cbv zeta. fold rot.
  unfold THREE.lerp. split.
  - exists (sin (time * 1.5 + 112) * 0.01), (cos (time * 1.2 + 112) * 0.01).
    assert (Hs := SIN_bound (time * 1.5 + 112)).
    assert (Hco := COS_bound (time * 1.2 + 112)).
    split; [f_equal; f_equal; [f_equal |]; lra |].
    repeat split; try reflexivity; apply Rabs_le; lra.
  - f_equal. f_equal; [f_equal |]; lra.
Qed.

Lemma photo_sway_witness :
  p_id samplePhoto = PhotosSetup.idOf 0
  /\ PhotosSetup.charCodeAt0 (p_id samplePhoto) = Some 112.
Proof.
  assert (H : p_id samplePhoto = PhotosSetup.idOf 0) by reflexivity.
  split; [exact H |].
  exact (proj1 (photo_sway samplePhoto 0 0 H)).
Defined.

(** ** [App]: uploads *)

(** An upload keeps the photos already there, in their order, and adds
    the new urls behind them in the order of the files; it changes no
    other cell; a missing or empty file list changes nothing; and two
    uploads in a row give what one upload of both file lists gives. *)
Theorem handleUpload_appends
        {File : Type} (createObjectURL : File -> string)
        (files : option (list File)) (fs1 fs2 : list File) (s : App.State) :
  let s' := App.handleUpload createObjectURL files s in
  let added := match files with
               | Some fs => map createObjectURL fs
               | None => []
               end in
  App.photos s' = App.photos s ++ added
  /\ App.treeState s' = App.treeState s
  /\ App.handPosition s' = App.handPosition s
  /\ App.isMagnified s' = App.isMagnified s
  /\ (added = [] -> s' = s)
  /\ App.handleUpload createObjectURL (Some fs2)
       (App.handleUpload createObjectURL (Some fs1) s)
     = App.handleUpload createObjectURL (Some (fs1 ++ fs2)) s.
Proof.
  intros s' added.
  assert (Hone : forall fs,
            App.handleUpload createObjectURL (Some fs) s
            = App.mkState (App.treeState s) (App.handPosition s)
                (App.isMagnified s)
                (App.photos s ++ map createObjectURL fs)).
  { intros [| f fs]; cbn; [| reflexivity].
    rewrite app_nil_r. destruct s; reflexivity. }
  split.
  { unfold s', added. destruct files as [fs |].
    - rewrite Hone. reflexivity.
    - cbn. rewrite app_nil_r. reflexivity. }
  split; [unfold s'; destruct files as [fs |]; [rewrite Hone |]; reflexivity |].
  split; [unfold s'; destruct files as [fs |]; [rewrite Hone |]; reflexivity |].
  split; [unfold s'; destruct files as [fs |]; [rewrite Hone |]; reflexivity |].
  split.
  - unfold s', added. destruct files as [[| f fs] |]; cbn;
      try reflexivity; discriminate.
  - rewrite (Hone fs1), (Hone (fs1 ++ fs2)).
    destruct fs2 as [| f2 fs2].
    + cbn. rewrite !app_nil_r. reflexivity.
    + cbn [App.handleUpload List.length Nat.ltb Nat.leb App.treeState
           App.handPosition App.isMagnified App.photos].
      rewrite map_app, app_assoc. reflexivity.
Qed.

Lemma handleUpload_appends_witness :
  App.handleUpload (fun f : string => f) (Some []) App.initial = App.initial.
Proof.
  apply (proj1 (proj2 (proj2 (proj2 (proj2
           (handleUpload_appends (fun f : string => f) (Some []) [] []
              App.initial)))))).
  reflexivity.
Defined.

(** ** The gesture callback: guards, repetition, invariance *)

(** While the canvas, the video or the 2D context is missing, the
    callback returns at once and writes nothing. *)
Lemma onResults_guard
      (env : GestureController.Env) (results : GestureController.Results)
      (w : GestureController.World) :
  GestureController.canvasMounted env = false
  \/ GestureController.videoMounted env = false
  \/ GestureController.context2d env = false ->
  GestureController.onResults env results w = GestureController.Ok tt w.
Proof.
  intros H. unfold GestureController.onResults.
  destruct (GestureController.canvasMounted env),
    (GestureController.videoMounted env),
    (GestureController.context2d env); cbn [negb orb];
    try reflexivity.
  destruct H as [H | [H | H]]; discriminate.
Qed.

Lemma afterHand_idempotent (landmarks : list GestureController.Landmark)
      (w : GestureController.World) :
  GestureController.afterHand landmarks
    (GestureController.afterHand landmarks w)
  = GestureController.afterHand landmarks w.
Proof.
  unfold GestureController.afterHand. cbv zeta.
  destruct (Rltb (GestureController.pinchDist landmarks) 0.05);
    [reflexivity |].
  destruct (GestureController.openCount landmarks <=? 1)%nat;
    [reflexivity |].
  destruct (4 <=? GestureController.openCount landmarks)%nat; reflexivity.
Qed.

(** Handling the same result twice leaves what handling it once leaves.
    The second call starts from the state the first one left, also when
    the first one threw; its outcome (normal return or the same error)
    and the state after it are those of the first call. *)
Theorem onResults_idempotent
        (env : GestureController.Env) (results : GestureController.Results)
        (w : GestureController.World) :
  GestureController.onResults env results
    (GestureController.worldOf (GestureController.onResults env results w))
  = GestureController.onResults env results w.
Proof.
  destruct (GestureController.canvasMounted env) eqn:Ec;
    [| rewrite !onResults_guard by (left; exact Ec); reflexivity].
  destruct (GestureController.videoMounted env) eqn:Ev;
    [| rewrite !onResults_guard by (right; left; exact Ev); reflexivity].
  destruct (GestureController.context2d env) eqn:Ex;
    [| rewrite !onResults_guard by (right; right; exact Ex);
       reflexivity].
  assert (Hm : GestureController.mounted env) by (repeat split; assumption).
  destruct results as [[[| landmarks others] |]].
  - rewrite !onResults_no_hand by (assumption || (right; reflexivity)).
    reflexivity.
  - destruct (Nat.lt_ge_cases (List.length landmarks) 21) as [Hlt | Hge].
    + rewrite !onResults_incomplete by assumption. reflexivity.
    + rewrite !onResults_complete by assumption.
      cbn [GestureController.worldOf].
      rewrite afterHand_idempotent. reflexivity.
  - rewrite !onResults_no_hand by (assumption || (left; reflexivity)).
    reflexivity.
Qed.

Lemma lm_map (f : GestureController.Landmark -> GestureController.Landmark)
      (landmarks : list GestureController.Landmark) (i : nat) :
  (i < List.length landmarks)%nat ->
  GestureController.lm (map f landmarks) i
  = f (GestureController.lm landmarks i).
Proof.
  intros Hi. unfold GestureController.lm.
  rewrite (nth_indep _ _ (f (GestureController.mkLandmark 0 0)))
    by (rewrite length_map; exact Hi).
  apply map_nth.
Qed.

(** Distances between landmarks are kept by a map that keeps the
    squares of the coordinate differences. *)
Lemma classification_invariant
      (f : GestureController.Landmark -> GestureController.Landmark)
      (landmarks : list GestureController.Landmark) :
  GestureController.complete landmarks ->
  (forall a b, GestureController.dist (f a) (f b)
               = GestureController.dist a b) ->
  GestureController.pinchDist (map f landmarks)
  = GestureController.pinchDist landmarks
  /\ GestureController.openCount (map f landmarks)
     = GestureController.openCount landmarks.
Proof.
  intros Hc Hf. unfold GestureController.complete in Hc.
  unfold GestureController.pinchDist.
  rewrite !openCount_flags. unfold GestureController.fingerOpen.
  rewrite !lm_map by lia. rewrite !Hf. split; reflexivity.
Qed.

(** The classification does not depend on where the hand is in the
    image, nor on which way round it is: a sample moved as a whole, or
    mirrored left to right, gets the same label, magnify flag and
    interaction state. *)
Theorem classification_ignores_position
        (env : GestureController.Env)
        (landmarks : list GestureController.Landmark)
        (others : list (list GestureController.Landmark))
        (w : GestureController.World) (dx dy : R) :
  GestureController.mounted env ->
  GestureController.complete landmarks ->
  exists w0 w1 w2,
    GestureController.onResults env
      (GestureController.mkResults (Some (landmarks :: others))) w
    = GestureController.Ok tt w0
    /\ GestureController.onResults env
         (GestureController.mkResults
            (Some (translate dx dy landmarks :: others))) w
       = GestureController.Ok tt w1
    /\ GestureController.onResults env
         (GestureController.mkResults (Some (mirror landmarks :: others))) w
       = GestureController.Ok tt w2
    /\ verdict w1 = verdict w0
    /\ verdict w2 = verdict w0.
Proof.
  intros Hm Hc.
  assert (Hct : GestureController.complete (translate dx dy landmarks))
    by (unfold GestureController.complete, translate in *;
        rewrite length_map; exact Hc).
  assert (Hcm : GestureController.complete (mirror landmarks))
    by (unfold GestureController.complete, mirror in *;
        rewrite length_map; exact Hc).
  destruct (classification_invariant
              (fun p => GestureController.mkLandmark
                          (GestureController.x p + dx)
                          (GestureController.y p + dy)) landmarks Hc)
    as [Hpt Hot].
  { intros a b. unfold GestureController.dist.
    cbn [GestureController.x GestureController.y]. f_equal; ring. }
  destruct (classification_invariant
              (fun p => GestureController.mkLandmark
                          (1 - GestureController.x p)
                          (GestureController.y p)) landmarks Hc)
    as [Hpm Hom].
  { intros a b. unfold GestureController.dist, Math.hypot.
    cbn [GestureController.x GestureController.y]. f_equal. ring. }
  fold (translate dx dy landmarks) in Hpt, Hot.
  fold (mirror landmarks) in Hpm, Hom.
  do 3 eexists.
  split; [apply onResults_complete; assumption |].
  split; [apply onResults_complete; assumption |].
  split; [apply onResults_complete; assumption |].
  unfold verdict, GestureController.afterHand. cbv zeta.
  rewrite Hpt, Hot, Hpm, Hom.
  destruct (Rltb (GestureController.pinchDist landmarks) 0.05);
    [split; reflexivity |].
  destruct (GestureController.openCount landmarks <=? 1)%nat;
    [split; reflexivity |].
  destruct (4 <=? GestureController.openCount landmarks)%nat;
    split; reflexivity.
Qed.

Lemma classification_ignores_position_witness :
  exists w0 w1,
    GestureController.onResults GestureController.allMounted
      (GestureController.mkResults (Some [GestureController.fist]))
      GestureController.startWorld
    = GestureController.Ok tt w0
    /\ GestureController.onResults GestureController.allMounted
         (GestureController.mkResults
            (Some [translate 0.1 0.05 GestureController.fist]))
         GestureController.startWorld
       = GestureController.Ok tt w1
    /\ verdict w1 = verdict w0.
Proof.
  destruct (classification_ignores_position GestureController.allMounted
              GestureController.fist [] GestureController.startWorld
              0.1 0.05 allMounted_mounted (proj1 fist_facts))
    as (w0 & w1 & w2 & H0 & H1 & _ & Hv & _).
  exists w0, w1. repeat split; assumption.
Defined.

(** For a hand whose middle-finger base lies inside the image, the hand
    position handed to the application is that point mirrored left to
    right and mapped to [[-1,1]] in both coordinates, with the middle of
    the image at [(0,0)]; and the polar angle the camera then aims at
    lies inside the limits the camera clamps to. *)
Theorem hand_offset_range
        (env : GestureController.Env)
        (landmarks : list GestureController.Landmark)
        (others : list (list GestureController.Landmark))
        (w : GestureController.World) :
  GestureController.mounted env ->
  GestureController.complete landmarks ->
  let p := GestureController.lm landmarks 9 in
  0 <= GestureController.x p <= 1 ->
  0 <= GestureController.y p <= 1 ->
  exists w' hx hy,
    GestureController.onResults env
      (GestureController.mkResults (Some (landmarks :: others))) w
    = GestureController.Ok tt w'
    /\ App.handPosition (GestureController.app w') = Some (hx, hy)
    /\ hx = 1 - 2 * GestureController.x p
    /\ hy = 2 * GestureController.y p - 1
    /\ -1 <= hx <= 1 /\ -1 <= hy <= 1
    /\ 0.1 <= PI / 2.2 - hy * 0.5 <= PI / 1.6.
Proof.
  intros Hm Hc p Hx Hy.
  exists (GestureController.afterHand landmarks w),
    (1 - 2 * GestureController.x p), (2 * GestureController.y p - 1).
  split; [apply onResults_complete; assumption |].
  split.
  { unfold GestureController.afterHand, GestureController.handOffset.
    cbv zeta. fold p.
    replace ((1 - GestureController.x p - 0.5) * 2)
      with (1 - 2 * GestureController.x p) by lra.
    replace ((GestureController.y p - 0.5) * 2)
      with (2 * GestureController.y p - 1) by lra.
    destruct (Rltb (GestureController.pinchDist landmarks) 0.05);
      [reflexivity |].
    destruct (GestureController.openCount landmarks <=? 1)%nat;
      [reflexivity |].
    destruct (4 <=? GestureController.openCount landmarks)%nat;
      reflexivity. }
  assert (Hpi := PI2_3_2). assert (Hpi4 := PI_4).
  repeat split; lra.
Qed.

Lemma hand_offset_range_witness :
  exists w' hx hy,
    GestureController.onResults GestureController.allMounted
      (GestureController.mkResults (Some [GestureController.fist]))
      GestureController.startWorld
    = GestureController.Ok tt w'
    /\ App.handPosition (GestureController.app w') = Some (hx, hy)
    /\ -1 <= hx <= 1 /\ -1 <= hy <= 1.
Proof.
  destruct (hand_offset_range GestureController.allMounted
              GestureController.fist [] GestureController.startWorld
              allMounted_mounted (proj1 fist_facts))
    as (w' & hx & hy & H0 & H1 & _ & _ & Hx & Hy & _).
  - cbn. lra.
  - cbn. lra.
  - exists w', hx, hy. repeat split; (assumption || apply Hx || apply Hy).
Defined.

(** ** From gesture to morph *)

(** A fist or an open hand takes effect at once and the morph follows
    without a jump: after a complete sample that is not a pinch, the
    factor is unchanged by the callback, and a run of [k] frames from
    it, with an error of at most [u] per operation, ends within
    [2 * k * u] of the start value moved by 1.5 per second towards 1
    after a fist (at most one open finger) and towards 0 after an open
    hand (at least four), and where it would have ended before for two
    or three open fingers. *)
Theorem gesture_drives_morph
        (env : GestureController.Env)
        (landmarks : list GestureController.Landmark)
        (others : list (list GestureController.Landmark))
        (w : GestureController.World)
        (rnd : R -> R) (u m : R) (deltas : list R) :
  GestureController.mounted env ->
  GestureController.complete landmarks ->
  0.05 <= GestureController.pinchDist landmarks ->
  Rounded.accurate u rnd ->
  0 <= m <= 1 ->
  Forall (fun d => 2 * u <= d * 1.5 <= 1 - u) deltas ->
  let n := GestureController.openCount landmarks in
  let total := Rounded.total deltas in
  let e := 2 * INR (List.length deltas) * u in
  exists w',
    GestureController.onResults env
      (GestureController.mkResults (Some (landmarks :: others))) w
    = GestureController.Ok tt w'
    /\ ((n <= 1)%nat ->
        Rabs (Rounded.frames rnd (App.treeState (GestureController.app w'))
                m deltas
              - Rmin 1 (m + total * 1.5)) <= e)
    /\ ((4 <= n)%nat ->
        Rabs (Rounded.frames rnd (App.treeState (GestureController.app w'))
                m deltas
              - Rmax 0 (m - total * 1.5)) <= e)
    /\ ((2 <= n <= 3)%nat ->
        Rounded.frames rnd (App.treeState (GestureController.app w'))
          m deltas
        = Rounded.frames rnd (App.treeState (GestureController.app w))
            m deltas).
Proof.
  intros Henv Hl Hp Hr Hm Hall n total e.
  destruct (rounded_run_error rnd u TREE_SHAPE m deltas Hr Hm Hall)
    as (_ & _ & Hup & Hdown).
  exists (GestureController.afterHand landmarks w).
  split; [apply onResults_complete; assumption |].
  unfold GestureController.afterHand. cbv zeta.
  rewrite (Rltb_false _ _ Hp). fold n.
  split; [| split].
  - intros Hn. apply Nat.leb_le in Hn. rewrite Hn. exact Hup.
  - intros Hn.
    assert (H1 : (n <=? 1)%nat = false) by (apply Nat.leb_gt; lia).
    apply Nat.leb_le in Hn. rewrite H1, Hn. exact Hdown.
  - intros Hn.
    assert (H1 : (n <=? 1)%nat = false) by (apply Nat.leb_gt; lia).
    assert (H4 : (4 <=? n)%nat = false) by (apply Nat.leb_gt; lia).
    rewrite H1, H4. reflexivity.
Qed.

Lemma gesture_drives_morph_witness :
  exists w',
    GestureController.onResults GestureController.allMounted
      (GestureController.mkResults (Some [GestureController.fist]))
      GestureController.magnifiedWorld
    = GestureController.Ok tt w'
    /\ Rabs (Rounded.frames Rounded.toGrid
               (App.treeState (GestureController.app w')) 0 [0.1; 0.2]
             - Rmin 1 (0 + Rounded.total [0.1; 0.2] * 1.5))
       <= 2 * INR (List.length [0.1; 0.2]) * / IZR (2 ^ 53).
Proof.
  destruct fist_facts as (Hc & Hp & Ho).
  assert (Hg := grid_unit).
  assert (Hge : 0.05 <= GestureController.pinchDist GestureController.fist)
    by (rewrite Hp; lra).
  assert (Hm : 0 <= 0 <= 1) by lra.
  assert (Hd : Forall
                 (fun d => 2 * / IZR (2 ^ 53) <= d * 1.5 <= 1 - / IZR (2 ^ 53))
                 [0.1; 0.2])
    by (repeat constructor; lra).
  destruct (gesture_drives_morph GestureController.allMounted
              GestureController.fist [] GestureController.magnifiedWorld
              Rounded.toGrid (/ IZR (2 ^ 53)) 0 [0.1; 0.2]
              allMounted_mounted Hc Hge accurate_toGrid Hm Hd)
    as (w' & Hrun & Hfist & _).
  exists w'. split; [exact Hrun |].
  apply Hfist. rewrite Ho. lia.
Defined.
